(** * Pts: typography helpers and the SVG form

    A shallow embedding of [Typography] (dist/files/Typography.js) and of
    [SVGForm] with the part of [SVGSpace] it draws through (Svg.js).

    Numbers.  Where the rounding of binary64 arithmetic decides what the
    code returns (the width estimator, and the coordinates and the printing
    of an arc's end points) a number is a binary64 [float], and a coordinate
    of a [Pt] is one rounded to binary32.  Elsewhere a finite JavaScript
    number is modelled by the rational it denotes ([Q]), without rounding;
    the non-finite results a division can produce are kept, as the
    constructors [PInf], [NInf] and [NaN] of [num].  Counters are integers
    ([Z]).  Strings are [string]s and [str.length] is [String.length].

    Objects.  The style map is an object literal: its own properties in
    insertion order, with the members of [Object.prototype] behind them.

    Effects.  A call is a function from the state to an outcome and the new
    state; the outcome says whether the call returned or threw, and a throw
    keeps what the call had changed before it.  The static draw functions
    run on the page (the document and the static counters of the class), the
    methods on an instance together with the page. *)

From Stdlib Require Import QArith Qround Qminmax ZArith Lia DecimalString.
From Stdlib Require DecimalPos DecimalZ.
From Stdlib Require Floats.
From stdpp Require Import gmap strings.

Set Warnings "-inexact-float".

Open Scope string_scope.
Open Scope Q_scope.

(** ** JavaScript numbers *)

Module Num.

Inductive num : Type :=
| Fin (q : Q)
| PInf
| NInf
| NaN.

(** [a / b] on finite operands: a zero divisor gives an infinity of the sign
    of [a], and [0 / 0] is [NaN]. *)
Definition div (a b : Q) : num :=
  if Qeq_bool b 0 then
    match a ?= 0 with
    | Gt => PInf
    | Lt => NInf
    | Eq => NaN
    end
  else Fin (a / b).

(** [Math.min(a, b)] *)
Definition Math_min (a b : num) : num :=
  match a, b with
  | NaN, _ | _, NaN => NaN
  | NInf, _ | _, NInf => NInf
  | PInf, x | x, PInf => x
  | Fin p, Fin q => Fin (Qmin p q)
  end.

(** [Math.max(a, b)] *)
Definition Math_max (a b : num) : num :=
  match a, b with
  | NaN, _ | _, NaN => NaN
  | PInf, _ | _, PInf => PInf
  | NInf, x | x, NInf => x
  | Fin p, Fin q => Fin (Qmax p q)
  end.

(** The infinity [s * inf] for a finite factor of comparison-to-zero [c]. *)
Definition scaled_inf (c : comparison) (positive : bool) : num :=
  match c with
  | Eq => NaN
  | Gt => if positive then PInf else NInf
  | Lt => if positive then NInf else PInf
  end.

(** [a * b] *)
Definition mul (a b : num) : num :=
  match a, b with
  | NaN, _ | _, NaN => NaN
  | Fin p, Fin q => Fin (p * q)
  | Fin p, PInf | PInf, Fin p => scaled_inf (p ?= 0) true
  | Fin p, NInf | NInf, Fin p => scaled_inf (p ?= 0) false
  | PInf, PInf | NInf, NInf => PInf
  | PInf, NInf | NInf, PInf => NInf
  end.

(** [a - b] *)
Definition sub (a b : num) : num :=
  match a, b with
  | NaN, _ | _, NaN => NaN
  | Fin p, Fin q => Fin (p - q)
  | PInf, PInf | NInf, NInf => NaN
  | PInf, _ | _, NInf => PInf
  | NInf, _ | _, PInf => NInf
  end.

(** [Math.floor(a)] *)
Definition Math_floor (a : num) : num :=
  match a with
  | Fin q => Fin (inject_Z (Qfloor q))
  | x => x
  end.

(** [a < b]; every comparison with [NaN] is false. *)
Definition lt (a b : num) : bool :=
  match a, b with
  | NaN, _ | _, NaN => false
  | Fin p, Fin q => negb (Qle_bool q p)
  | NInf, NInf | PInf, _ => false
  | NInf, _ | Fin _, PInf => true
  | Fin _, NInf => false
  end.

(** [a <= b] *)
Definition le (a b : num) : bool :=
  match a, b with
  | NaN, _ | _, NaN => false
  | Fin p, Fin q => Qle_bool p q
  | NInf, _ | _, PInf => true
  | PInf, _ | Fin _, NInf => false
  end.

Definition of_nat (n : nat) : Q := inject_Z (Z.of_nat n).

End Num.

(** ** Binary64 numbers *)

Module Binary64.
Import Floats.

(** [Math.fround(x)]: the binary32 number nearest to [x], ties to even, as
    a [Float32Array] stores it. *)
Definition fround (x : float) : float :=
  match Prim2SF x with
  | S754_finite s m e => SF2Prim (binary_round 24 128 s m e)
  | _ => x
  end.

(** The number nearest to an integer; exact below 2^53. *)
Definition of_Z (z : Z) : float :=
  SF2Prim (binary_normalize prec emax z 0 false).

Definition of_nat (n : nat) : float := of_Z (Z.of_nat n).



(** [x || 0] for a number: [NaN] and the zeros give 0. *)
Definition or_zero (x : float) : float :=
  if is_nan x || is_zero x then zero else x.


End Binary64.

(** ** Points *)

Module Pt.
Import Floats.

(** Modelled from the spec: [Pt] of Pt.js, which is not among the sources
    (a "point/vector type supporting indexed coordinate access,
    angle-to-point conversion, bounding-box computation, dot product").
    The library declares [Pt] as a [Float32Array]: [new Pt(list)] stores
    every number of the list rounded to binary32, and a coordinate read
    back is that binary32 value as a number. *)
Definition constructor (coordinates : list float) : list float :=
  map Binary64.fround coordinates.

(** Modelled from the spec: [Pt.dot], which adds the products of the
    coordinates to 0, one after the other; the two lists are to have the
    same length. *)
Definition dot (a b : list float) : float :=
  fold_left (fun d ab => PrimFloat.add d (PrimFloat.mul (fst ab) (snd ab)))
    (combine a b) zero.

(** Modelled from the spec: [Pt.add] on two coordinates,
    [a[i] += b[i] || 0], the sum stored in binary32. *)
Definition add (a b : float * float) : float * float :=
  (Binary64.fround (PrimFloat.add (fst a) (Binary64.or_zero (fst b))),
   Binary64.fround (PrimFloat.add (snd a) (Binary64.or_zero (snd b)))).


End Pt.

(** ** Typography *)

Module Typography.
Import Floats.
Import Num.

(** [str.length] as a number. *)
Definition length (str : string) : Q := of_nat (String.length str).

(** [str.substr(0, n)]: the length argument is truncated to an integer
    ([NaN] counts as 0) and clamped to the string; a negative length gives
    the empty string, as [Z.to_nat] of its floor does. *)
Definition substr0 (str : string) (n : num) : string :=
  match n with
  | Fin q => String.substring 0 (Z.to_nat (Qfloor q)) str
  | PInf => str
  | NInf | NaN => ""
  end.

(** [str.length] as a binary64 number. *)
Definition length64 (str : string) : float :=
  Binary64.of_nat (String.length str).

Definition default_samples : list string := ["M"; "n"; "."].
Definition default_distribution : list float := [0.06; 0.8; 0.14]%float.

(** [Typography.textWidthEstimator(fn, samples, distribution)], in
    binary64 as the code computes it. *)
Definition textWidthEstimator (fn : string -> float)
    (samples : list string) (distribution : list float) : string -> float :=
  let m := map fn samples in
  let avg := Pt.dot (Pt.constructor distribution) m in
  fun str => PrimFloat.mul (length64 str) avg.

(** The trimmed length
    [Math.floor(str.length * Math.min(1, width / fn(str)))]. *)
Definition trimmed (fn : string -> Q) (str : string) (width : Q) : num :=
  Math_floor (mul (Fin (length str)) (Math_min (Fin 1) (div width (fn str)))).

(** [Typography.truncate(fn, str, width, tail)] *)
Definition truncate (fn : string -> Q) (str : string) (width : Q)
    (tail : string) : string * num :=
  let trim := trimmed fn str width in
  if lt trim (Fin (length str)) then
    let trim := Math_max (Fin 0) (sub trim (Fin (length tail))) in
    (substr0 str trim +:+ tail, trim)
  else
    (str, Fin (length str)).

(** The coordinate a box is measured along: [p[1]] by height, [p[0]] by
    width. *)
Definition extent_coord (byHeight : bool) (p : Q * Q) : Q :=
  if byHeight then snd p else fst p.

(** [Typography.fontSizeToBox(box, ratio, byHeight)]; a box is a group of
    two points, and the defaults are [ratio = 1] and [byHeight = true]. *)
Definition fontSizeToBox (box : (Q * Q) * (Q * Q)) (ratio : Q)
    (byHeight : bool) : (Q * Q) * (Q * Q) -> num :=
  let h := extent_coord byHeight (snd box) - extent_coord byHeight (fst box) in
  let f := ratio * h in
  fun b =>
    let nh :=
      div (extent_coord byHeight (snd b) - extent_coord byHeight (fst b)) h in
    mul (Fin f) nh.


End Typography.

(** ** Values, objects and the state monad *)

Module JS.

(** The primitive values the form stores in its style map. *)
Inductive value : Type :=
| undefined
| boolean (b : bool)
| number (q : Q)
| str (s : string).

(** [typeof v == "boolean"] *)
Definition is_boolean (v : value) : bool :=
  match v with boolean _ => true | _ => false end.

(** Truthiness, as [if (v)] tests it. *)
Definition truthy (v : value) : bool :=
  match v with
  | undefined => false
  | boolean b => b
  | number q => negb (Qeq_bool q 0)
  | str s => negb (String.eqb s "")
  end.

(** An object literal: its own enumerable properties in insertion order,
    which is the order [for (k in o)] visits them in (no key of the style
    map is an array index). *)
Definition object : Type := list (string * value).

Fixpoint own (o : object) (k : string) : option value :=
  match o with
  | [] => None
  | (k', v) :: o' => if String.eqb k' k then Some v else own o' k
  end.

(** The properties every object literal inherits from [Object.prototype]. *)
Definition Object_prototype : list string :=
  ["constructor"; "hasOwnProperty"; "isPrototypeOf"; "propertyIsEnumerable";
   "toLocaleString"; "toString"; "valueOf"; "__proto__";
   "__defineGetter__"; "__defineSetter__"; "__lookupGetter__";
   "__lookupSetter__"].

Definition inherited (k : string) : bool :=
  existsb (String.eqb k) Object_prototype.

(** [o[k] === undefined]: an own property decides by its value; a key that
    is not an own property is looked up on [Object.prototype], whose members
    are functions or objects and never [undefined]. *)
Definition is_undefined (o : object) (k : string) : bool :=
  match own o k with
  | Some undefined => true
  | Some _ => false
  | None => negb (inherited k)
  end.

(** [o[k]] for a key that [Object.prototype] does not define. *)
Definition get (o : object) (k : string) : value :=
  match own o k with
  | Some v => v
  | None => undefined
  end.

Fixpoint replace (o : object) (k : string) (v : value) : object :=
  match o with
  | [] => []
  | (k', v') :: o' =>
      if String.eqb k' k then (k', v) :: o' else (k', v') :: replace o' k v
  end.

(** [o[k] = v] for a primitive [v]: an own property keeps its place, a new
    one is added last; [__proto__] is an accessor whose setter ignores
    primitives. *)
Definition assign (o : object) (k : string) (v : value) : object :=
  match own o k with
  | Some _ => replace o k v
  | None => if String.eqb k "__proto__" then o else (o ++ [(k, v)])%list
  end.

(** How a call ends: it returns, or it throws and leaves the state as
    mutated so far. *)
Inductive outcome (A : Type) : Type :=
| Return (a : A)
| Throw (message : string).
Arguments Return {A} a.
Arguments Throw {A} message.

Definition M (S A : Type) : Type := S -> outcome A * S.

Definition ret {S A} (a : A) : M S A := fun s => (Return a, s).

Definition throw {S A} (message : string) : M S A :=
  fun s => (Throw message, s).

Definition bind {S A B} (m : M S A) (k : A -> M S B) : M S B :=
  fun s =>
    match m s with
    | (Return a, s') => k a s'
    | (Throw e, s') => (Throw e, s')
    end.

Definition gets {S A} (f : S -> A) : M S A := fun s => (Return (f s), s).

Definition modify {S} (f : S -> S) : M S unit := fun s => (Return tt, f s).

(** Runs a computation on the second component of a pair of states. *)
Definition on_snd {S T A} (m : M T A) : M (S * T) A :=
  fun st =>
    match m (snd st) with
    | (r, t') => (r, (fst st, t'))
    end.

End JS.

Declare Scope js_scope.
Delimit Scope js_scope with js.
Notation "x <- m ;; k" := (JS.bind m (fun x => k))
  (at level 100, m at next level, right associativity) : js_scope.
Notation "m ;;; k" := (JS.bind m (fun _ => k))
  (at level 100, right associativity) : js_scope.
Open Scope js_scope.

(** ** Collaborators that are not among the sources *)

Module Form.

(** Modelled from the spec: [Font] of Form.js, which is not among the
    sources ("size, family, weight, style, lineHeight; derives a single
    formatted string"). *)
Record Font : Type := mkFont {
  size : Q;
  face : string;
  weight : string;
  style : string;
  lineHeight : Q }.

(** A point: the two coordinates [pt[0]] and [pt[1]] the form reads. *)
Definition Pt : Type := (Q * Q)%type.

(** Modelled from the spec: [VisualForm._checkSize] of Form.js, which is
    not among the sources ("line/poly operations silently no-op if input has
    fewer than 2 points"). *)
Definition _checkSize (pts : list Pt) : bool := (2 <=? List.length pts)%nat.

End Form.

(** What the form calls and the sources do not define: the runtime's number
    formatting and the helpers of Pt.js, Num.js, Util.js, Op.js and Form.js. *)
Class Externals : Type := {
  (** [String(q)] for a number that is not an integer below 10^21 *)
  fracToString : Q -> string;
  (** [new Pt(pt).toAngle(angle, magnitude, true)] *)
  Pt_toAngle : Form.Pt -> Q -> Q -> Form.Pt;
  (** [Geom.boundAngle(angle)] *)
  Geom_boundAngle : Q -> Q;
  (** [Const.pi] *)
  Const_pi : Q;
  (** [Group.fromArray(pts).boundingBox()] *)
  Group_boundingBox : list Form.Pt -> Form.Pt * Form.Pt;
  (** [Rectangle.size(bound)] *)
  Rectangle_size : Form.Pt * Form.Pt -> Form.Pt;
  (** the weight, style and line height of a [Font] built without them *)
  Font_weight : string;
  Font_style : string;
  Font_lineHeight : Q;
  (** the getter [Font.value] *)
  Font_value : Form.Font -> string;
  (** the font a [VisualForm] is constructed with *)
  VisualForm_font : Form.Font }.

Module Text.

(** [String(z)] for an integer. *)
Definition intToString (z : Z) : string := NilZero.string_of_int (Z.to_int z).

(** [String(q)]: an integer below 10^21 prints its decimal digits. *)
Definition numToString `{Externals} (q : Q) : string :=
  let r := Qred q in
  if (Qden r =? 1)%positive && (Z.abs (Qnum r) <? 10 ^ 21)%Z
  then intToString (Qnum r)
  else fracToString r.

(** [String(v)] *)
Definition toString `{Externals} (v : JS.value) : string :=
  match v with
  | JS.undefined => "undefined"
  | JS.boolean true => "true"
  | JS.boolean false => "false"
  | JS.number q => numToString q
  | JS.str s => s
  end.

End Text.

(** ** Printing a number *)

Module Number.
Import Floats Text.

(** [n] with [10^(n-1) <= v < 10^n], searched from a first guess. *)
Fixpoint decimal_exponent (fuel : nat) (v : Q) (n : Z) : Z :=
  match fuel with
  | O => n
  | S fuel =>
      if Qle_bool (Qpower 10 n) v then decimal_exponent fuel v (n + 1)
      else if Qle_bool (Qpower 10 (n - 1)) v then n
      else decimal_exponent fuel v (n - 1)
  end.

(** Whether the decimal [c] reads back as the number of mantissa [m] and
    exponent [e]: it lies between the midpoints to the two neighbours,
    which belong to the number when its mantissa is even. *)
Definition reads_back (m : positive) (e : Z) (c : Q) : bool :=
  let v := inject_Z (Zpos m) * Qpower 2 e in
  let up := Qpower 2 e / 2 in
  let down :=
    if (Zpos m =? 2 ^ 52)%Z && (-1074 <? e)%Z then Qpower 2 e / 4
    else Qpower 2 e / 2 in
  if Z.even (Zpos m)
  then Qle_bool (v - down) c && Qle_bool c (v + up)
  else negb (Qle_bool c (v - down)) && negb (Qle_bool (v + up) c).

(** The digits [s], their count [k] and the exponent [n] of
    Number::toString: the fewest digits such that [s * 10^(n-k)] reads
    back as the number and, among those, the [s] nearest to it. *)
Fixpoint shortest (tries : nat) (k : Z) (m : positive) (e : Z) (n : Z)
    : Z * Z * Z :=
  let v := inject_Z (Zpos m) * Qpower 2 e in
  let scale := Qpower 10 (n - k) in
  let lo := Qfloor (v / scale) in
  let hi := (lo + 1)%Z in
  let ok_lo := reads_back m e (inject_Z lo * scale) in
  let ok_hi := reads_back m e (inject_Z hi * scale) in
  let d_lo := v - inject_Z lo * scale in
  let d_hi := inject_Z hi * scale - v in
  let pick (s : Z) :=
    if (s =? 10 ^ k)%Z then ((10 ^ (k - 1))%Z, k, (n + 1)%Z) else (s, k, n) in
  match tries with
  | O => pick lo
  | S tries =>
      if ok_lo && ok_hi then
        match d_lo ?= d_hi with
        | Lt => pick lo
        | Gt => pick hi
        | Eq => if Z.even lo then pick lo else pick hi
        end
      else if ok_lo then pick lo
      else if ok_hi then pick hi
      else shortest tries (k + 1) m e n
  end.

Definition zeros (n : Z) : string :=
  String.concat "" (repeat "0" (Z.to_nat n)).

(** The layout of the digits: plain for [-6 < n <= 21], with an exponent
    otherwise. *)
Definition layout (s k n : Z) : string :=
  let digits := intToString s in
  let exponent :=
    "e" +:+ (if (n - 1 <? 0)%Z then "-" else "+")
    +:+ intToString (Z.abs (n - 1)) in
  if (-6 <? n)%Z && (n <=? 21)%Z then
    if (k <=? n)%Z then digits +:+ zeros (n - k)
    else if (0 <? n)%Z then
      String.substring 0 (Z.to_nat n) digits +:+ "."
      +:+ String.substring (Z.to_nat n) (Z.to_nat (k - n)) digits
    else "0." +:+ zeros (- n) +:+ digits
  else if (k =? 1)%Z then digits +:+ exponent
  else String.substring 0 1 digits +:+ "."
       +:+ String.substring 1 (Z.to_nat (k - 1)) digits +:+ exponent.

(** [String(x)] for a number, as a template literal prints it
    (ECMAScript, Number::toString in radix 10). *)
Definition toString (x : float) : string :=
  match Prim2SF x with
  | S754_nan => "NaN"
  | S754_zero _ => "0"
  | S754_infinity s => if s then "-Infinity" else "Infinity"
  | S754_finite sign m e =>
      let v := inject_Z (Zpos m) * Qpower 2 e in
      let guess := ((Z.log2 (Zpos m) + e) * 1233 / 4096)%Z in
      let n := decimal_exponent 8 v guess in
      let '(s, k, n) := shortest 17 1 m e n in
      (if sign then "-" else "") +:+ layout s k n
  end.

End Number.

(** ** Angles *)

Module Geom.


End Geom.

(** ** The document *)

Module Dom.
Import JS.

(** A node that can take children. *)
Definition node : Type := nat.

Record Element : Type := mkElement {
  tagName : string;
  parentNode : node;
  attributes : gmap string string;
  textContent : string }.

(** The page: its elements by id, as [document.querySelector("#" + id)]
    finds them, and the two counters the class [SVGForm] keeps as static
    properties.  The parents the form draws into are taken to be attached
    to the document, so that an element appended to one is found again. *)
Record page : Type := mkPage {
  document : gmap string Element;
  domID : Z;
  groupID_next : Z }.

Definition set_document (f : gmap string Element -> gmap string Element)
    (p : page) : page :=
  mkPage (f (document p)) (domID p) (groupID_next p).

Definition set_domID (z : Z) (p : page) : page :=
  mkPage (document p) z (groupID_next p).

Definition set_groupID_next (z : Z) (p : page) : page :=
  mkPage (document p) (domID p) z.

(** [elem.setAttribute(k, v)] *)
Definition setAttribute (k v : string) (e : Element) : Element :=
  mkElement (tagName e) (parentNode e) (<[k := v]> (attributes e))
    (textContent e).

Definition set_textContent (txt : string) (e : Element) : Element :=
  mkElement (tagName e) (parentNode e) (attributes e) txt.

(** Every attribute of a mapping set on an element, in the mapping's
    order. *)
Definition setAttributes (data : list (string * string)) (e : Element)
    : Element :=
  fold_left (fun e kv => setAttribute (fst kv) (snd kv) e) data e.

(** Modelled from the spec: [DOMSpace.setAttr] of Dom.js, which is not
    among the sources ("a function setAttributes(element, mapping)"): it
    sets every attribute of the mapping on the element and returns the
    element. *)
Definition setAttr (elem : string) (data : list (string * string))
    : M page string :=
  modify (set_document (alter (setAttributes data) elem)) ;;;
  ret elem.

End Dom.

(** ** SVGSpace *)

Module SVGSpace.
Import JS Dom.

Record SVGSpace : Type := mkSpace { element : node }.

(** [SVGSpace.svgElement(parent, name, id)]; [None] is a parent that is
    null, undefined or has no [appendChild].  The id is taken to be one that
    the selector ["#" + id] can name. *)
Definition svgElement (parent : option node) (name id : string)
    : M page string :=
  match parent with
  | None => throw "parent is not a valid DOM element"
  | Some p =>
      found <- gets (fun pg => document pg !! id) ;;
      match found with
      | Some _ => ret id
      | None =>
          modify (set_document
            (insert id (mkElement name p {[ "id" := id ]} ""))) ;;;
          ret id
      end
  end.

End SVGSpace.

(** ** The drawing context *)

Module Context.
Import JS Dom.

(** The drawing context [_ctx]. *)
Record DrawContext : Type := mkCtx {
  group : option node;
  groupID : string;
  groupCount : Z;
  currentID : string;
  currentClass : string;
  style : object;
  font : string;
  fontSize : Q;
  fontFamily : string }.

Definition set_group (g : option node) (c : DrawContext) : DrawContext :=
  mkCtx g (groupID c) (groupCount c) (currentID c) (currentClass c) (style c)
    (font c) (fontSize c) (fontFamily c).

Definition set_groupID (s : string) (c : DrawContext) : DrawContext :=
  mkCtx (group c) s (groupCount c) (currentID c) (currentClass c) (style c)
    (font c) (fontSize c) (fontFamily c).

Definition set_groupCount (n : Z) (c : DrawContext) : DrawContext :=
  mkCtx (group c) (groupID c) n (currentID c) (currentClass c) (style c)
    (font c) (fontSize c) (fontFamily c).

Definition set_currentID (s : string) (c : DrawContext) : DrawContext :=
  mkCtx (group c) (groupID c) (groupCount c) s (currentClass c) (style c)
    (font c) (fontSize c) (fontFamily c).

Definition set_style (o : object) (c : DrawContext) : DrawContext :=
  mkCtx (group c) (groupID c) (groupCount c) (currentID c) (currentClass c) o
    (font c) (fontSize c) (fontFamily c).

Definition set_font (s : string) (c : DrawContext) : DrawContext :=
  mkCtx (group c) (groupID c) (groupCount c) (currentID c) (currentClass c)
    (style c) s (fontSize c) (fontFamily c).

Definition set_currentClass (s : string) (c : DrawContext) : DrawContext :=
  mkCtx (group c) (groupID c) (groupCount c) (currentID c) s (style c)
    (font c) (fontSize c) (fontFamily c).

End Context.

(** ** SVGForm *)

Module SVGForm.
Import JS Dom Text.

Local Abbreviation Pt := Form.Pt.
Local Abbreviation Font := Form.Font.
Local Abbreviation _checkSize := Form._checkSize.

(** An instance of [SVGForm]. *)
Record SVGForm : Type := mkForm {
  _ctx : Context.DrawContext;
  _font : Font;
  _ready : bool;
  _space : SVGSpace.SVGSpace }.

(** An instance together with the page it draws on. *)
Abbreviation world := (SVGForm * page)%type.

Definition this_ctx : M world Context.DrawContext :=
  gets (fun w => _ctx (fst w)).

Definition update_ctx (f : Context.DrawContext -> Context.DrawContext)
    : M world unit :=
  modify (fun w =>
    (mkForm (f (_ctx (fst w))) (_font (fst w)) (_ready (fst w))
       (_space (fst w)), snd w)).

Definition update_font (f : Font) : M world unit :=
  modify (fun w =>
    (mkForm (_ctx (fst w)) f (_ready (fst w)) (_space (fst w)), snd w)).

Definition update_ready (b : bool) : M world unit :=
  modify (fun w =>
    (mkForm (_ctx (fst w)) (_font (fst w)) b (_space (fst w)), snd w)).

(** [new Font(size, face)] *)
Definition new_Font `{Externals} (size : Q) (face : string) : Font :=
  Form.mkFont size face Font_weight Font_style Font_lineHeight.

(** [new SVGForm(space)], before the space starts. *)
Definition constructor `{Externals} (space : SVGSpace.SVGSpace) : SVGForm :=
  mkForm
    (Context.mkCtx None "pts" 0 "pts0" ""
       [("filled", boolean true); ("stroked", boolean true);
        ("fill", str "#f03"); ("stroke", str "#fff");
        ("stroke-width", number 1);
        ("stroke-linejoin", str "bevel");
        ("stroke-linecap", str "sqaure")]
       "11px sans-serif" 11 "sans-serif")
    VisualForm_font false space.

(** The [start] callback the constructor hands to the space. *)
Definition start : M world unit :=
  space <- gets (fun w => _space (fst w)) ;;
  update_ctx (Context.set_group (Some (SVGSpace.element space))) ;;;
  n <- gets (fun w => groupID_next (snd w)) ;;
  on_snd (modify (set_groupID_next (n + 1))) ;;;
  update_ctx (Context.set_groupID ("pts_svg_" +:+ intToString n)) ;;;
  update_ready true.

(** [SVGForm.getID(ctx)] *)
Definition getID (ctx : Context.DrawContext) : M page string :=
  if String.eqb (Context.currentID ctx) "" then
    n <- gets domID ;;
    modify (set_domID (n + 1)) ;;;
    ret ("p-" +:+ intToString n)
  else ret (Context.currentID ctx).

(** One round of the [for (k in styles)] loop of [SVGForm.style]. *)
Definition style_entry `{Externals} (styles : object) (st : list string)
    (k : string) : list string :=
  if negb (String.eqb k "filled") && negb (String.eqb k "stroked") then
    let v := get styles k in
    if truthy v then
      if negb (truthy (get styles "filled")) && String.prefix "fill" k
      then st
      else if negb (truthy (get styles "stroked")) && String.prefix "stroke" k
      then st
      else (st ++ [k +:+ ": " +:+ toString v])%list
    else st
  else st.

(** The text [SVGForm.style] puts into the [style] attribute. *)
Definition style_text `{Externals} (styles : object) : string :=
  let st := if truthy (get styles "filled") then [] else ["fill: none"] in
  let st :=
    if truthy (get styles "stroked") then st
    else (st ++ ["stroke: none"])%list in
  let st := fold_left (style_entry styles) (map fst styles) st in
  String.concat ";" st.

(** [SVGForm.style(elem, styles)].  The loop calls [styles.hasOwnProperty],
    which is a primitive and no function once the map has an own property
    of that name. *)
Definition style `{Externals} (elem : string) (styles : object)
    : M page string :=
  match styles, own styles "hasOwnProperty" with
  | _ :: _, Some _ => throw "styles.hasOwnProperty is not a function"
  | _, _ => setAttr elem [("style", style_text styles)]
  end.

(** [SVGForm.circle(ctx, pt, radius = 10)] *)
Definition circle `{Externals} (ctx : Context.DrawContext) (pt : Pt)
    (radius : option Q) : M page string :=
  let radius := default 10 radius in
  id <- getID ctx ;;
  elem <- SVGSpace.svgElement (Context.group ctx) "circle" id ;;
  setAttr elem
    [("cx", numToString (fst pt));
     ("cy", numToString (snd pt));
     ("r", numToString radius);
     ("class", "pts-svgform pts-circle " +:+ Context.currentClass ctx)] ;;;
  style elem (Context.style ctx) ;;;
  ret elem.

(** [SVGForm.square(ctx, pt, halfsize)] *)
Definition square `{Externals} (ctx : Context.DrawContext) (pt : Pt)
    (halfsize : Q) : M page string :=
  id <- getID ctx ;;
  elem <- SVGSpace.svgElement (Context.group ctx) "rect" id ;;
  setAttr elem
    [("x", numToString (fst pt - halfsize));
     ("y", numToString (snd pt - halfsize));
     ("width", numToString (halfsize * 2));
     ("height", numToString (halfsize * 2));
     ("class", "pts-svgform pts-square " +:+ Context.currentClass ctx)] ;;;
  style elem (Context.style ctx) ;;;
  ret elem.

(** [SVGForm.point(ctx, pt, radius = 5, shape = "square")] *)
Definition point `{Externals} (ctx : Context.DrawContext) (pt : Pt)
    (radius : option Q) (shape : option string) : M page string :=
  let radius := default 5 radius in
  let shape := default "square" shape in
  if String.eqb shape "circle" then circle ctx pt (Some radius)
  else square ctx pt radius.

(** The path [d] that [SVGForm.arc] writes. *)
Definition arc_path `{Externals} (pt : Pt) (radius startAngle endAngle : Q)
    (cc : bool) : string :=
  let start := Pt_toAngle pt startAngle radius in
  let end_ := Pt_toAngle pt endAngle radius in
  let diff := Geom_boundAngle endAngle - Geom_boundAngle startAngle in
  let largeArc := negb (Qle_bool diff Const_pi) in
  let largeArc := if cc then negb largeArc else largeArc in
  let sweep := if cc then "0" else "1" in
  "M " +:+ numToString (fst start) +:+ " " +:+ numToString (snd start)
  +:+ " A " +:+ numToString radius +:+ " " +:+ numToString radius
  +:+ " 0 " +:+ (if largeArc then "1" else "0") +:+ " " +:+ sweep
  +:+ " " +:+ numToString (fst end_) +:+ " " +:+ numToString (snd end_).

(** [SVGForm.arc(ctx, pt, radius, startAngle, endAngle, cc)] *)
Definition arc `{Externals} (ctx : Context.DrawContext) (pt : Pt)
    (radius startAngle endAngle : Q) (cc : bool) : M page string :=
  id <- getID ctx ;;
  elem <- SVGSpace.svgElement (Context.group ctx) "path" id ;;
  let d := arc_path pt radius startAngle endAngle cc in
  setAttr elem
    [("d", d);
     ("class", "pts-svgform pts-arc " +:+ Context.currentClass ctx)] ;;;
  style elem (Context.style ctx) ;;;
  ret elem.

(** [SVGForm._poly(ctx, pts, closePath)]; [None] is the [undefined] it
    returns without drawing. *)
Definition _poly `{Externals} (ctx : Context.DrawContext) (pts : list Pt)
    (closePath : bool) : M page (option string) :=
  if negb (_checkSize pts) then ret None
  else
    id <- getID ctx ;;
    elem <- SVGSpace.svgElement (Context.group ctx)
              (if closePath then "polygon" else "polyline") id ;;
    let points :=
      fold_left
        (fun a p => a +:+ numToString (fst p) +:+ "," +:+ numToString (snd p)
                      +:+ " ")
        pts "" in
    setAttr elem
      [("points", points);
       ("class", "pts-svgform pts-polygon " +:+ Context.currentClass ctx)] ;;;
    style elem (Context.style ctx) ;;;
    ret (Some elem).

(** [SVGForm.line(ctx, pts)] *)
Definition line `{Externals} (ctx : Context.DrawContext) (pts : list Pt)
    : M page (option string) :=
  if negb (_checkSize pts) then ret None
  else if (2 <? List.length pts)%nat then _poly ctx pts false
  else
    match pts with
    | p0 :: p1 :: _ =>
        id <- getID ctx ;;
        elem <- SVGSpace.svgElement (Context.group ctx) "line" id ;;
        setAttr elem
          [("x1", numToString (fst p0));
           ("y1", numToString (snd p0));
           ("x2", numToString (fst p1));
           ("y2", numToString (snd p1));
           ("class", "pts-svgform pts-line " +:+ Context.currentClass ctx)] ;;;
        style elem (Context.style ctx) ;;;
        ret (Some elem)
    | _ => throw "TypeError"
    end.

(** [SVGForm.polygon(ctx, pts)] *)
Definition polygon `{Externals} (ctx : Context.DrawContext) (pts : list Pt)
    : M page (option string) :=
  _poly ctx pts true.

(** [SVGForm.rect(ctx, pts)] *)
Definition rect `{Externals} (ctx : Context.DrawContext) (pts : list Pt)
    : M page (option string) :=
  if negb (_checkSize pts) then ret None
  else
    id <- getID ctx ;;
    elem <- SVGSpace.svgElement (Context.group ctx) "rect" id ;;
    let bound := Group_boundingBox pts in
    let size := Rectangle_size bound in
    setAttr elem
      [("x", numToString (fst (fst bound)));
       ("y", numToString (snd (fst bound)));
       ("width", numToString (fst size));
       ("height", numToString (snd size));
       ("class", "pts-svgform pts-rect " +:+ Context.currentClass ctx)] ;;;
    style elem (Context.style ctx) ;;;
    ret (Some elem).

(** [SVGForm.text(ctx, pt, txt)] *)
Definition text `{Externals} (ctx : Context.DrawContext) (pt : Pt)
    (txt : string) : M page string :=
  id <- getID ctx ;;
  elem <- SVGSpace.svgElement (Context.group ctx) "text" id ;;
  setAttr elem
    [("pointer-events", "none");
     ("x", numToString (fst pt));
     ("y", numToString (snd pt));
     ("dx", numToString 0);
     ("dy", numToString 0);
     ("class", "pts-svgform pts-text " +:+ Context.currentClass ctx)] ;;;
  modify (set_document (alter (set_textContent txt) elem)) ;;;
  style elem (Context.style ctx) ;;;
  ret elem.

(** An item handed to [scope] or [scopeID]: one that the space has added
    carries a number as [animateID]; [None] is an [animateID] that is
    undefined. *)
Record Item : Type := mkItem { animateID : option Z }.

(** [SVGForm.scopeID(item)] *)
Definition scopeID (item : Item) : string :=
  "item-" +:+ match animateID item with
              | Some z => intToString z
              | None => "undefined"
              end.

(** The methods of an instance; each works on [this._ctx] and, where the
    source returns [this], returns nothing. *)
Module prototype.

(** [styleTo(k, v)] *)
Definition styleTo (k : string) (v : value) : M world unit :=
  ctx <- this_ctx ;;
  if is_undefined (Context.style ctx) k
  then throw (k +:+ " style property doesn't exist")
  else update_ctx (fun c => Context.set_style (assign (Context.style c) k v) c).

(** [fill(c)] *)
Definition fill (c : value) : M world unit :=
  if is_boolean c then styleTo "filled" c
  else
    styleTo "filled" (boolean true) ;;;
    styleTo "fill" c.

(** [stroke(c, width, linejoin, linecap)]; an argument left out is
    [undefined]. *)
Definition stroke (c width linejoin linecap : value) : M world unit :=
  if is_boolean c then styleTo "stroked" c
  else
    styleTo "stroked" (boolean true) ;;;
    styleTo "stroke" c ;;;
    (if truthy width then styleTo "stroke-width" width else ret tt) ;;;
    (if truthy linejoin then styleTo "stroke-linejoin" linejoin
     else ret tt) ;;;
    (if truthy linecap then styleTo "stroke-linecap" linecap else ret tt).

(** [reset()] *)
Definition reset `{Externals} : M world unit :=
  update_ctx (Context.set_style
    [("filled", boolean true); ("stroked", boolean true);
     ("fill", str "#f03"); ("stroke", str "#fff");
     ("stroke-width", number 1);
     ("stroke-linejoin", str "bevel");
     ("stroke-linecap", str "sqaure")]) ;;;
  update_font (new_Font 14 "sans-serif") ;;;
  f <- gets (fun w => _font (fst w)) ;;
  update_ctx (Context.set_font (Font_value f)).

(** [nextID()] *)
Definition nextID : M world string :=
  update_ctx (fun c =>
    Context.set_groupCount (Context.groupCount c + 1)%Z c) ;;;
  update_ctx (fun c =>
    Context.set_currentID
      (Context.groupID c +:+ "-" +:+ intToString (Context.groupCount c)) c) ;;;
  ctx <- this_ctx ;;
  ret (Context.currentID ctx).

(** [updateScope(group_id, group)] *)
Definition updateScope (group_id : string) (group : option node)
    : M world Context.DrawContext :=
  update_ctx (Context.set_group group) ;;;
  update_ctx (Context.set_groupID group_id) ;;;
  update_ctx (Context.set_groupCount 0%Z) ;;;
  nextID ;;;
  this_ctx.

(** [point(pt, radius = 5, shape = "square")] *)
Definition point `{Externals} (pt : Pt) (radius : option Q)
    (shape : option string) : M world unit :=
  let radius := default 5 radius in
  let shape := default "square" shape in
  nextID ;;;
  ctx <- this_ctx ;;
  on_snd (SVGForm.point ctx pt (Some radius) (Some shape)) ;;;
  ret tt.

(** [circle(pts)]: reading [pts[1][0]] of a group with fewer than two
    points is a [TypeError]. *)
Definition circle `{Externals} (pts : list Pt) : M world unit :=
  nextID ;;;
  ctx <- this_ctx ;;
  match pts with
  | p0 :: p1 :: _ => on_snd (SVGForm.circle ctx p0 (Some (fst p1))) ;;; ret tt
  | _ => throw "TypeError"
  end.

(** [arc(pt, radius, startAngle, endAngle, cc)] *)
Definition arc `{Externals} (pt : Pt) (radius startAngle endAngle : Q)
    (cc : bool) : M world unit :=
  nextID ;;;
  ctx <- this_ctx ;;
  on_snd (SVGForm.arc ctx pt radius startAngle endAngle cc) ;;;
  ret tt.

(** [square(pt, halfsize)] *)
Definition square `{Externals} (pt : Pt) (halfsize : Q) : M world unit :=
  nextID ;;;
  ctx <- this_ctx ;;
  on_snd (SVGForm.square ctx pt halfsize) ;;;
  ret tt.

(** [line(pts)] *)
Definition line `{Externals} (pts : list Pt) : M world unit :=
  nextID ;;;
  ctx <- this_ctx ;;
  on_snd (SVGForm.line ctx pts) ;;;
  ret tt.

(** [polygon(pts)] *)
Definition polygon `{Externals} (pts : list Pt) : M world unit :=
  nextID ;;;
  ctx <- this_ctx ;;
  on_snd (SVGForm.polygon ctx pts) ;;;
  ret tt.

(** [rect(pts)] *)
Definition rect `{Externals} (pts : list Pt) : M world unit :=
  nextID ;;;
  ctx <- this_ctx ;;
  on_snd (SVGForm.rect ctx pts) ;;;
  ret tt.

(** [text(pt, txt)] *)
Definition text `{Externals} (pt : Pt) (txt : string) : M world unit :=
  nextID ;;;
  ctx <- this_ctx ;;
  on_snd (SVGForm.text ctx pt txt) ;;;
  ret tt.

(** [log(txt)] *)
Definition log `{Externals} (txt : string) : M world unit :=
  fill (str "#000") ;;;
  stroke (str "#fff") (number 0.5) undefined undefined ;;;
  text (10, 14) txt.

(** [cls(c)]; the class is kept as the text the draw functions print. *)
Definition cls `{Externals} (c : value) : M world unit :=
  if is_boolean c then update_ctx (Context.set_currentClass "")
  else update_ctx (Context.set_currentClass (toString c)).

(** [font(sizeOrFont, weight, style, lineHeight, family)]; an argument left
    out is [None].  A font object handed in replaces [_font]; it is held by
    value here, so what later calls do to the caller's object is not
    modelled. *)
Definition font `{Externals} (sizeOrFont : Q + Font)
    (weight style : option string) (lineHeight : option Q)
    (family : option string) : M world unit :=
  match sizeOrFont with
  | inl size =>
      f <- gets (fun w => _font (fst w)) ;;
      let f :=
        Form.mkFont size (Form.face f) (Form.weight f) (Form.style f)
          (Form.lineHeight f) in
      let f :=
        match family with
        | Some s =>
            if truthy (str s)
            then Form.mkFont (Form.size f) s (Form.weight f) (Form.style f)
                   (Form.lineHeight f)
            else f
        | None => f
        end in
      let f :=
        match weight with
        | Some s =>
            if truthy (str s)
            then Form.mkFont (Form.size f) (Form.face f) s (Form.style f)
                   (Form.lineHeight f)
            else f
        | None => f
        end in
      let f :=
        match style with
        | Some s =>
            if truthy (str s)
            then Form.mkFont (Form.size f) (Form.face f) (Form.weight f) s
                   (Form.lineHeight f)
            else f
        | None => f
        end in
      let f :=
        match lineHeight with
        | Some q =>
            if truthy (number q)
            then Form.mkFont (Form.size f) (Form.face f) (Form.weight f)
                   (Form.style f) q
            else f
        | None => f
        end in
      update_font f ;;;
      update_ctx (Context.set_font (Font_value f))
  | inr given => update_font given
  end.

(** [scope(item)]; [None] is an item that is null or undefined. *)
Definition scope (item : option Item) : M world Context.DrawContext :=
  match item with
  | Some it =>
      match animateID it with
      | Some _ =>
          space <- gets (fun w => _space (fst w)) ;;
          updateScope (scopeID it) (Some (SVGSpace.element space))
      | None => throw "item not defined or not yet added to Space"
      end
  | None => throw "item not defined or not yet added to Space"
  end.

End prototype.

(** The draw calls of an instance, with their arguments. *)
Inductive draw : Type :=
| Point (pt : Pt) (radius : option Q) (shape : option string)
| Circle (pts : list Pt)
| Arc (pt : Pt) (radius startAngle endAngle : Q) (cc : bool)
| Square (pt : Pt) (halfsize : Q)
| Line (pts : list Pt)
| Polygon (pts : list Pt)
| Rect (pts : list Pt)
| Text (pt : Pt) (txt : string).

Definition call `{Externals} (d : draw) : M world unit :=
  match d with
  | Point pt radius shape => prototype.point pt radius shape
  | Circle pts => prototype.circle pts
  | Arc pt radius startAngle endAngle cc =>
      prototype.arc pt radius startAngle endAngle cc
  | Square pt halfsize => prototype.square pt halfsize
  | Line pts => prototype.line pts
  | Polygon pts => prototype.polygon pts
  | Rect pts => prototype.rect pts
  | Text pt txt => prototype.text pt txt
  end.

(** Whether a draw call has the points it needs: [circle] reads two, and
    [line], [polygon] and [rect] skip a group of fewer than two. *)
Definition draws (d : draw) : bool :=
  match d with
  | Circle pts | Line pts | Polygon pts | Rect pts =>
      (2 <=? List.length pts)%nat
  | Point _ _ _ | Arc _ _ _ _ _ | Square _ _ | Text _ _ => true
  end.

(** A computation on the page returns and leaves under [id] an element
    whose [style] attribute is [s]. *)
Definition styled {A} (m : M page A) (pg : page) (id s : string) : Prop :=
  exists a pg' e,
    m pg = (Return a, pg') /\
    document pg' !! id = Some e /\ attributes e !! "style" = Some s.

(** The context and the style map of the instance in a world. *)
Definition ctx_of (w : world) : Context.DrawContext := _ctx (fst w).
Definition style_in (w : world) : object := Context.style (ctx_of w).

(** A run of draw calls, one after the other; a call that throws ends the
    run. *)
Fixpoint draw_all `{Externals} (ds : list draw) : M world unit :=
  match ds with
  | [] => ret tt
  | d :: ds => call d ;;; draw_all ds
  end.

(** The shape name in the class a draw call writes: a point is drawn as a
    square or a circle, and every poly-element, open or closed, counts as
    a polygon. *)
Definition shape_class (d : draw) : string :=
  match d with
  | Point _ _ shape =>
      if String.eqb (default "square" shape) "circle" then "circle"
      else "square"
  | Circle _ => "circle"
  | Arc _ _ _ _ _ => "arc"
  | Square _ _ => "square"
  | Line pts => if (2 <? List.length pts)%nat then "polygon" else "line"
  | Polygon _ => "polygon"
  | Rect _ => "rect"
  | Text _ _ => "text"
  end.

(** The entries [SVGForm.style] joins with ";" into the style text. *)
Definition style_entries `{Externals} (styles : object) : list string :=
  let st := if truthy (get styles "filled") then [] else ["fill: none"] in
  let st :=
    if truthy (get styles "stroked") then st
    else (st ++ ["stroke: none"])%list in
  fold_left (style_entry styles) (map fst styles) st.

End SVGForm.

(** ** Sample inputs *)

Module Sample.
Import JS Dom Text.

(** The digits after the decimal point of [r / d], at most [places] of
    them. *)
Fixpoint decimals (places : nat) (r d : Z) : string :=
  match places with
  | O => ""
  | S places =>
      if (r =? 0)%Z then ""
      else intToString (r * 10 / d) +:+ decimals places ((r * 10) mod d) d
  end.

(** A fraction in decimal notation, to 20 places. *)
Definition decimal (q : Q) : string :=
  let n := Z.abs (Qnum q) in
  let d := Zpos (Qden q) in
  (if (Qnum q <? 0)%Z then "-" else "")
  +:+ intToString (n / d) +:+ "." +:+ decimals 20 (n mod d) d.

(** Collaborators to run the form with: fractions print in decimal, angles
    are not normalised, and [toAngle] knows the two horizontal
    directions. *)
Definition externals : Externals := {|
  fracToString := decimal;
  Pt_toAngle := fun pt angle magnitude =>
    if Qeq_bool angle 0 then (fst pt + magnitude, snd pt)
    else (fst pt - magnitude, snd pt);
  Geom_boundAngle := fun angle => angle;
  Const_pi := 355 # 113;
  Group_boundingBox := fun pts =>
    (hd (0, 0) pts, hd (0, 0) (tl pts));
  Rectangle_size := fun bound =>
    (fst (snd bound) - fst (fst bound), snd (snd bound) - snd (fst bound));
  Font_weight := "";
  Font_style := "";
  Font_lineHeight := 1.5;
  Font_value := fun f => intToString (Qfloor (Form.size f)) +:+ "px "
                           +:+ Form.face f;
  VisualForm_font := Form.mkFont 12 "sans-serif" "" "" 1.5 |}.

(** An empty page. *)
Definition blank : page := mkPage ∅ 0 0.

(** A new form on the blank page, and the same once the space started. *)
Definition fresh : SVGForm.world :=
  (@SVGForm.constructor externals (SVGSpace.mkSpace 7%nat), blank).

Definition started : SVGForm.world := snd (SVGForm.start fresh).

(** A measure that finds every string 2 wide. *)
Definition two_wide (s : string) : Q := 2.

Import Floats.






End Sample.

(** ** The footprint of a computation on the page *)

Module Footprint.
Import JS Dom.

(** An element function that overwrites: it keeps the tag and the parent,
    sets some attributes and, maybe, the text. *)
Definition overwrites (f : Element -> Element) : Prop :=
  exists (attrs : gmap string string) (txt : option string),
    forall e,
      f e = mkElement (tagName e) (parentNode e) (attrs ∪ attributes e)
              (default (textContent e) txt).

(** What is done to the entry of one id: nothing, or the element there, a
    new one if there is none, is overwritten. *)
Definition settled (G : option Element -> option Element) : Prop :=
  (forall x, G x = x) \/
  exists new f, overwrites f /\ forall x, G x = Some (f (default new x)).

(** A computation that overwrites the element under [i], whatever the
    page, and ends the same way on every page. *)
Definition edits {A} (i : string) (m : M page A) : Prop :=
  exists out f, overwrites f /\
    forall pg, m pg = (out, set_document (alter f i) pg).

(** A computation whose whole effect is on the entry of [i], and is
    [settled]. *)
Definition settles {A} (i : string) (m : M page A) : Prop :=
  exists out G, settled G /\
    forall pg, m pg = (out, set_document (partial_alter G i) pg).

(** A page function that does not depend on the entry of [i] and leaves it
    alone. *)
Definition apart (i : string) (T : page -> page) : Prop :=
  forall G pg,
    T (set_document (partial_alter G i) pg)
    = set_document (partial_alter G i) (T pg).

(** A computation on the page returns and leaves under [id] an element
    whose attribute [k] is [v]. *)
Definition attributed {A} (m : M page A) (pg : page) (id k v : string)
    : Prop :=
  exists a pg' e,
    m pg = (Return a, pg') /\
    document pg' !! id = Some e /\ attributes e !! k = Some v.

(** The instance once [nextID] has run, and once [updateScope] has; the
    page plays no part in either. *)
Definition advanced (f : SVGForm.SVGForm) : SVGForm.SVGForm :=
  fst (snd (SVGForm.prototype.nextID (f, mkPage ∅ 0 0))).

Definition scoped (group_id : string) (group : option node)
    (f : SVGForm.SVGForm) : SVGForm.SVGForm :=
  fst (snd (SVGForm.prototype.updateScope group_id group (f, mkPage ∅ 0 0))).

End Footprint.


(** * Theorems *)

(** ** Typography *)

Section TypographyFacts.
Import Num Typography.

Lemma length_append (s1 s2 : string) :
  String.length (s1 +:+ s2) = (String.length s1 + String.length s2)%nat.
Proof. induction s1 as [|c s1 IH]; simpl; [reflexivity | now rewrite IH]. Qed.

Lemma length_substring0 (n : nat) (s : string) :
  String.length (String.substring 0 n s) = Nat.min n (String.length s).
Proof.
  revert n; induction s as [|c s IH]; intros [|n]; simpl; try reflexivity.
  now rewrite IH.
Qed.

Lemma length_nonneg (s : string) : 0 <= length s.
Proof.
  unfold length, of_nat. change 0 with (inject_Z 0).
  rewrite <- Zle_Qle. apply Nat2Z.is_nonneg.
Qed.

(** [Math.floor] yields an integer or leaves a non-finite value alone. *)
Lemma Math_floor_cases (x : num) :
  (exists z, Math_floor x = Fin (inject_Z z) /\
             exists q, x = Fin q /\ z = Qfloor q) \/
  (Math_floor x = x /\ forall q, x <> Fin q).
Proof.
  destruct x as [q| | |]; simpl.
  - left. exists (Qfloor q). split; [reflexivity | now exists q].
  - right. split; [reflexivity | discriminate].
  - right. split; [reflexivity | discriminate].
  - right. split; [reflexivity | discriminate].
Qed.

Lemma Qmin_one_l (x : Q) : 1 <= x -> Qmin 1 x = 1.
Proof.
  intros Hx. unfold Qmin, GenericMinMax.gmin.
  destruct (1 ?= x) eqn:E; try reflexivity.
  rewrite <- Qgt_alt in E. exfalso. apply (Qlt_not_le _ _ E Hx).
Qed.

Lemma div_positive (a b : Q) : 0 < b -> div a b = Fin (a / b).
Proof.
  intros Hb. unfold div.
  destruct (Qeq_bool b 0) eqn:E; [|reflexivity].
  apply Qeq_bool_eq in E. rewrite E in Hb. now apply Qlt_irrefl in Hb.
Qed.

Lemma trimmed_wide_enough (fn : string -> Q) (str : string) (width : Q) :
  0 < fn str -> fn str <= width ->
  trimmed fn str width = Fin (inject_Z (Qfloor (length str * 1))).
Proof.
  intros Hpos Hle. unfold trimmed. rewrite div_positive by assumption.
  simpl. rewrite Qmin_one_l; [reflexivity|].
  apply Qle_shift_div_l; [assumption|]. now rewrite Qmult_1_l.
Qed.

Lemma floor_length (str : string) :
  Qfloor (length str * 1) = Z.of_nat (String.length str).
Proof.
  rewrite (Qfloor_comp _ (length str)) by apply Qmult_1_r.
  unfold length, of_nat. apply Qfloor_Z.
Qed.

(** C1: when the measured width is positive and [width] is at least the
    measured width of [str], [truncate] returns the pair of [str] and
    [str.length], whatever the tail. *)
Theorem truncate_fits_unchanged (fn : string -> Q) (str : string)
    (width : Q) (tail : string) :
  0 < fn str -> fn str <= width ->
  truncate fn str width tail = (str, Fin (length str)).
Proof.
  intros Hpos Hle. unfold truncate.
  rewrite trimmed_wide_enough by assumption.
  rewrite floor_length. fold (of_nat (String.length str)). fold (length str).
  simpl. destruct (Qle_bool (length str) (length str)) eqn:E; [reflexivity|].
  exfalso. assert (H : Qle_bool (length str) (length str) = true)
    by (apply Qle_bool_iff, Qle_refl).
  congruence.
Qed.

Lemma truncate_fits_unchanged_witness :
  0 < Typography.length "abcdef" /\ Typography.length "abcdef" <= 7 /\
  truncate Typography.length "abcdef" 7 "..." = ("abcdef", Fin 6).
Proof.
  split; [reflexivity|]. split; [discriminate|].
  apply (truncate_fits_unchanged Typography.length "abcdef" 7 "...").
  - reflexivity.
  - discriminate.
Defined.

(** The empty string is never trimmed. *)
Lemma trimmed_empty (fn : string -> Q) (str : string) (width : Q) :
  String.length str = 0%nat ->
  lt (trimmed fn str width) (Fin (length str)) = false.
Proof.
  intros E. unfold trimmed, length. rewrite E.
  destruct (Math_min (Fin 1) (div width (fn str))) as [q| | |];
    reflexivity.
Qed.

(** The result of [truncate] when the trimmed length is below the length of
    the text: [t] characters of the text followed by the tail, where [t] is
    the trimmed length less the length of the tail, or 0 if that is
    negative. *)
Lemma truncate_trimmed_result (fn : string -> Q) (str : string) (width : Q)
    (tail : string) :
  lt (trimmed fn str width) (Fin (length str)) = true ->
  exists (t : Z) (q : Q),
    (0 <= t < Z.of_nat (String.length str))%Z /\
    q == inject_Z t /\
    truncate fn str width tail =
      (String.substring 0 (Z.to_nat t) str +:+ tail, Fin q) /\
    ((Z.of_nat (String.length tail) <= Z.of_nat (String.length str))%Z ->
     (t + Z.of_nat (String.length tail) <= Z.of_nat (String.length str))%Z).
Proof.
  intros Hlt.
  assert (Hlen : (0 < Z.of_nat (String.length str))%Z).
  { destruct (String.length str) eqn:E; [|lia].
    rewrite trimmed_empty in Hlt by assumption. discriminate. }
  unfold truncate. rewrite Hlt. unfold trimmed in *.
  set (x := mul (Fin (length str))
              (Math_min (Fin 1) (div width (fn str)))) in *.
  destruct (Math_floor_cases x) as [(z & Hz & _) | (Hx & Hnf)].
  - rewrite Hz in *. simpl in Hlt. simpl.
    apply negb_true_iff in Hlt.
    assert (Hzlt : (z < Z.of_nat (String.length str))%Z).
    { destruct (Z_lt_le_dec z (Z.of_nat (String.length str))) as [H|H];
        [exact H|].
      exfalso. unfold length, of_nat in Hlt.
      assert (Qle_bool (inject_Z (Z.of_nat (String.length str))) (inject_Z z)
              = true) by (apply Qle_bool_iff; now rewrite <- Zle_Qle).
      congruence. }
    set (tl := Z.of_nat (String.length tail)).
    assert (Hq : Qmax 0 (inject_Z z - length tail)
                 == inject_Z (Z.max 0 (z - tl))).
    { unfold length, of_nat. fold tl.
      assert (Hd : inject_Z z - inject_Z tl == inject_Z (z - tl)).
      { unfold Z.sub. rewrite inject_Z_plus, inject_Z_opp. reflexivity. }
      destruct (Z_le_gt_dec 0 (z - tl)) as [H|H].
      - rewrite Z.max_r by assumption.
        rewrite Q.max_r; [exact Hd|].
        rewrite Hd. change 0 with (inject_Z 0). now rewrite <- Zle_Qle.
      - rewrite Z.max_l by lia.
        rewrite Q.max_l; [reflexivity|].
        rewrite Hd. change 0 with (inject_Z 0). rewrite <- Zle_Qle. lia. }
    exists (Z.max 0 (z - tl)), (Qmax 0 (inject_Z z - length tail)).
    split; [lia|]. split; [exact Hq|]. split.
    + rewrite (Qfloor_comp _ _ Hq), Qfloor_Z. reflexivity.
    + lia.
  - rewrite Hx in *. destruct x as [q| | |]; try discriminate.
    + now destruct (Hnf q).
    + simpl. exists 0%Z, 0.
      split; [lia|]. split; [reflexivity|]. split; [reflexivity|]. lia.
Qed.

(** C2, as stated, fails: a tail longer than the text makes the result
    longer than the text. *)
Lemma truncate_long_tail_exceeds_text :
  0 < Sample.two_wide "ab" /\
  lt (trimmed Sample.two_wide "ab" 1) (Fin (length "ab")) = true /\
  truncate Sample.two_wide "ab" 1 "..." = ("...", Fin 0) /\
  ~ (String.length (fst (truncate Sample.two_wide "ab" 1%Q "..."))
     <= String.length "ab")%nat.
Proof.
  split; [reflexivity|]. split; [reflexivity|]. split; [reflexivity|].
  vm_compute. lia.
Qed.

(** C2, amended: when the measured width is positive and the trimmed length
    is below [str.length], the second component of the result is at most
    [str.length], and the returned string is no longer than [str] provided
    the tail is no longer than [str]. *)
Theorem truncate_trimmed_bounds (fn : string -> Q) (str : string)
    (width : Q) (tail : string) :
  0 < fn str ->
  lt (trimmed fn str width) (Fin (length str)) = true ->
  le (snd (truncate fn str width tail)) (Fin (length str)) = true /\
  ((String.length tail <= String.length str)%nat ->
   (String.length (fst (truncate fn str width tail))
    <= String.length str)%nat).
Proof.
  intros _ Hlt.
  destruct (truncate_trimmed_result fn str width tail Hlt)
    as (t & q & Ht & Hq & Hres & Hsum).
  rewrite Hres. simpl. split.
  - apply Qle_bool_iff. rewrite Hq. unfold length, of_nat.
    rewrite <- Zle_Qle. lia.
  - intros Htail. rewrite length_append, length_substring0. lia.
Qed.

Lemma truncate_trimmed_bounds_witness :
  le (snd (truncate length "abcdef" 3 ".")) (Fin (length "abcdef")) = true /\
  ((String.length "." <= String.length "abcdef")%nat ->
   (String.length (fst (truncate length "abcdef" 3 "."))
    <= String.length "abcdef")%nat).
Proof.
  apply (truncate_trimmed_bounds length "abcdef" 3 ".");
    reflexivity.
Defined.

End TypographyFacts.

(** ** Typography: the width estimator *)

Section EstimatorFacts.
Import Floats Typography.
Local Open Scope float_scope.

Lemma length64_append (s1 s2 : string) :
  length64 (s1 +:+ s2)
  = Binary64.of_nat (String.length s1 + String.length s2).
Proof. unfold length64. f_equal. apply length_append. Qed.

(** Zero times a finite number is a zero. *)
Lemma mul_zero_finite (x : float) :
  is_finite x = true -> 0 * x = 0 \/ 0 * x = -0.
Proof.
  intros Hfin.
  assert (Hsf : exists b, Prim2SF (0 * x) = S754_zero b).
  { rewrite mul_spec. change (Prim2SF 0) with (S754_zero false).
    unfold is_finite in Hfin. apply negb_true_iff, orb_false_iff in Hfin.
    destruct Hfin as [Hnan Hinf]. unfold Prim2SF. rewrite Hnan, Hinf.
    destruct (is_zero x); [simpl; eauto|].
    destruct (Z.frexp x) as [r ex].
    destruct (shr_fexp prec emax _ _ _) as [sh e'].
    destruct (shr_m sh); simpl; eauto. }
  destruct Hsf as [b Hb]. rewrite <- (SF2Prim_Prim2SF (0 * x)), Hb.
  destruct b; [right | left]; reflexivity.
Qed.

(** C3, as stated, fails: for a measure that finds every sample 10 wide the
    claimed value for a string of three characters is 30, and the
    estimator returns 30.000000335276127. *)
Lemma estimator_weights_are_rounded :
  let M := fun _ : string => 10 in
  textWidthEstimator M default_samples default_distribution "abc"
    = 30.000000335276127 /\
  length64 "abc" * (0.06 * M "M" + 0.8 * M "n" + 0.14 * M ".") = 30 /\
  textWidthEstimator M default_samples default_distribution "abc"
    <> length64 "abc" * (0.06 * M "M" + 0.8 * M "n" + 0.14 * M ".").
Proof.
  cbv zeta. split; [vm_compute; reflexivity|].
  split; [vm_compute; reflexivity|].
  intros H. apply (f_equal (fun x => x =? 30)) in H.
  vm_compute in H. discriminate.
Qed.

(** C3: with the default samples and distribution the estimator maps a
    string [S] to [S.length * avg] in binary64, where [avg] is the dot
    product, added up from 0, of the measures of "M", "n" and "." with the
    weights as the [Pt] stores them: 0.06, 0.8 and 0.14 rounded to
    binary32, which are 0.05999999865889549, 0.800000011920929 and
    0.14000000059604645. *)
Theorem estimator_default_average (M : string -> float) (S : string) :
  textWidthEstimator M default_samples default_distribution S
  = length64 S * (0 + Binary64.fround 0.06 * M "M"
                    + Binary64.fround 0.8 * M "n"
                    + Binary64.fround 0.14 * M ".") /\
  Binary64.fround 0.06 = 0.05999999865889549 /\
  Binary64.fround 0.8 = 0.800000011920929 /\
  Binary64.fround 0.14 = 0.14000000059604645.
Proof.
  split; [reflexivity|]. repeat split; vm_compute; reflexivity.
Qed.

(** C9, as stated, fails: with the default samples and distribution and a
    measure that finds every sample 0.1 wide, the estimates of "ab" and of
    "cdefg" add up to 0.7000000078231097 and the estimate of "abcdefg" is
    0.7000000078231096; and for a measure that returns infinity the
    estimate of the empty string is [NaN]. *)
Lemma estimator_sum_differs :
  let est := textWidthEstimator (fun _ => 0.1) default_samples
               default_distribution in
  est ("ab" +:+ "cdefg") = 0.7000000078231096 /\
  est "ab" + est "cdefg" = 0.7000000078231097 /\
  est ("ab" +:+ "cdefg") <> est "ab" + est "cdefg" /\
  is_nan (textWidthEstimator (fun _ => infinity) default_samples
            default_distribution "") = true.
Proof.
  cbv zeta. split; [vm_compute; reflexivity|].
  split; [vm_compute; reflexivity|]. split; [|vm_compute; reflexivity].
  intros H. apply (f_equal (fun x => x =? 0.7000000078231096)) in H.
  vm_compute in H. discriminate.
Qed.

(** C9: the estimate of a string is its length times the average width
    computed when the estimator was built, in binary64; so strings of the
    same length have the same estimate, the estimate of a concatenation is
    that of the summed length, and the estimate of the empty string is a
    zero when the average is finite. *)
Theorem estimator_by_length (M : string -> float) (samples : list string)
    (distribution : list float) (s1 s2 : string) :
  List.length samples = List.length distribution ->
  let est := textWidthEstimator M samples distribution in
  let avg := Pt.dot (Pt.constructor distribution) (map M samples) in
  est (s1 +:+ s2)
    = Binary64.of_nat (String.length s1 + String.length s2) * avg /\
  (String.length s1 = String.length s2 -> est s1 = est s2) /\
  (is_finite avg = true -> (est "" =? 0) = true).
Proof.
  intros _. cbv zeta. unfold textWidthEstimator. split; [|split].
  - now rewrite length64_append.
  - intros Hlen. unfold length64. now rewrite Hlen.
  - intros Hfin. change (length64 "") with 0.
    destruct (mul_zero_finite _ Hfin) as [-> | ->]; reflexivity.
Qed.

Lemma estimator_by_length_witness :
  let est := textWidthEstimator (fun _ => 0.1) default_samples
               default_distribution in
  est ("ab" +:+ "cdefg") = Binary64.of_nat (2 + 5) * 0.10000000111758708 /\
  est "ab" = est "xy" /\
  (est "" =? 0) = true.
Proof.
  cbv zeta.
  destruct (estimator_by_length (fun _ => 0.1) default_samples
              default_distribution "ab" "cdefg") as (Hcat & _ & Hnil);
    [reflexivity|].
  destruct (estimator_by_length (fun _ => 0.1) default_samples
              default_distribution "ab" "xy") as (_ & Hsame & _);
    [reflexivity|].
  split; [exact Hcat|]. split; [now apply Hsame | now apply Hnil].
Defined.

End EstimatorFacts.

(** ** The monad *)

Section MonadFacts.
Import JS.
Context {S T : Type}.

Lemma bind_Return {A B} (m : M S A) (k : A -> M S B) (s s' : S) (a : A) :
  m s = (Return a, s') -> bind m k s = k a s'.
Proof. intros H. unfold bind. now rewrite H. Qed.

Lemma bind_Throw {A B} (m : M S A) (k : A -> M S B) (s s' : S) (e : string) :
  m s = (Throw e, s') -> bind m k s = (Throw e, s').
Proof. intros H. unfold bind. now rewrite H. Qed.

(** A computation on the page leaves the instance alone. *)
Lemma on_snd_frame {A} (m : M T A) (w : S * T) :
  fst (snd (on_snd m w)) = fst w.
Proof. unfold on_snd. now destruct (m (snd w)). Qed.

Lemma on_snd_Return {A} (m : M T A) (w : S * T) (a : A) (t : T) :
  m (snd w) = (Return a, t) -> on_snd m w = (Return a, (fst w, t)).
Proof. intros H. unfold on_snd. now rewrite H. Qed.

(** What follows a step does not touch the first component if no
    continuation does. *)
Lemma bind_frame {A B} (m : M (S * T) A) (k : A -> M (S * T) B) (w : S * T) :
  (forall a w0, fst (snd (k a w0)) = fst w0) ->
  fst (snd (bind m k w)) = fst (snd (m w)).
Proof.
  intros Hk. unfold bind. destruct (m w) as [[a|e] w']; simpl; auto.
Qed.

End MonadFacts.

(** ** SVGForm: the counter *)

Section CounterFacts.
Import JS Dom Text SVGForm.
Context `{E : Externals}.

Ltac frame :=
  repeat first
    [ progress intros
    | rewrite on_snd_frame
    | rewrite bind_frame
    | reflexivity ].

(** After [nextID], nothing of a draw call touches the instance. *)
Lemma call_frame (d : draw) (w : world) :
  fst (snd (call d w)) = fst (snd (prototype.nextID w)).
Proof.
  destruct d; unfold call, prototype.point, prototype.circle, prototype.arc,
    prototype.square, prototype.line, prototype.polygon, prototype.rect,
    prototype.text; cbv zeta; apply bind_frame; intros _ w0.
  all: try solve [frame].
  (* circle: the group may be too short *)
  rewrite bind_frame; [reflexivity|]. intros c w1.
  destruct pts as [|p0 [|p1 pts]]; try reflexivity. frame.
Qed.

Lemma nextID_ctx (w : world) :
  ctx_of (snd (prototype.nextID w)) =
  Context.set_currentID
    (Context.groupID (ctx_of w) +:+ "-" +:+
     intToString (Context.groupCount (ctx_of w) + 1))
    (Context.set_groupCount (Context.groupCount (ctx_of w) + 1)%Z (ctx_of w)).
Proof. destruct w as [f pg]. reflexivity. Qed.

(** A line, polygon or rectangle of fewer than two points draws nothing. *)
Lemma short_call_keeps_page (d : draw) (pts : list Form.Pt) (w : world) :
  d = Line pts \/ d = Polygon pts \/ d = Rect pts ->
  (List.length pts < 2)%nat ->
  fst (call d w) = Return tt /\ snd (snd (call d w)) = snd w.
Proof.
  intros Hd Hlen.
  assert (Hc : Form._checkSize pts = false).
  { unfold Form._checkSize. apply Nat.leb_gt. exact Hlen. }
  destruct w as [f pg].
  destruct Hd as [-> | [-> | ->]]; unfold call, prototype.line,
    prototype.polygon, prototype.rect, SVGForm.line, SVGForm.polygon,
    SVGForm._poly, SVGForm.rect; rewrite Hc; split; reflexivity.
Qed.

(** C4: every draw call of an instance adds exactly one to [groupCount]
    and leaves [currentID] equal to [groupID + "-" + groupCount], also when
    it throws, draws nothing or hands over to the poly-element. *)
Theorem draw_call_counts_once (d : draw) (w : world) :
  let w' := snd (call d w) in
  Context.groupCount (ctx_of w') = (Context.groupCount (ctx_of w) + 1)%Z /\
  Context.groupID (ctx_of w') = Context.groupID (ctx_of w) /\
  Context.currentID (ctx_of w') =
    Context.groupID (ctx_of w') +:+ "-" +:+
    intToString (Context.groupCount (ctx_of w')) /\
  (forall pts, d = Line pts \/ d = Polygon pts \/ d = Rect pts ->
     (List.length pts < 2)%nat ->
     fst (call d w) = Return tt /\ snd w' = snd w).
Proof.
  cbv zeta. unfold ctx_of at 1 3 5 6 7. rewrite call_frame.
  fold (ctx_of (snd (prototype.nextID w))). rewrite nextID_ctx.
  split; [reflexivity|]. split; [reflexivity|]. split; [reflexivity|].
  intros pts Hd Hlen. exact (short_call_keeps_page d pts w Hd Hlen).
Qed.

End CounterFacts.

(** ** Objects *)

Section ObjectFacts.
Import JS.

Lemma eqb_neq_false (k k' : string) : k <> k' -> String.eqb k k' = false.
Proof. intros H. now apply String.eqb_neq. Qed.

Lemma own_replace_eq (o : object) (k : string) (v : value) :
  own o k <> None -> own (replace o k v) k = Some v.
Proof.
  induction o as [|[k' v'] o IH]; simpl; [congruence|].
  destruct (String.eqb k' k) eqn:E; simpl; rewrite E; auto.
Qed.

Lemma own_replace_ne (o : object) (k k' : string) (v : value) :
  k <> k' -> own (replace o k v) k' = own o k'.
Proof.
  intros Hne. induction o as [|[k0 v0] o IH]; simpl; [reflexivity|].
  destruct (String.eqb k0 k) eqn:E; simpl.
  - apply String.eqb_eq in E. subst k0.
    now rewrite (eqb_neq_false k k' Hne).
  - now rewrite IH.
Qed.

Lemma own_app (o : object) (k k' : string) (v : value) :
  own (o ++ [(k, v)])%list k' =
  match own o k' with
  | Some x => Some x
  | None => if String.eqb k k' then Some v else None
  end.
Proof.
  induction o as [|[k0 v0] o IH]; simpl; [reflexivity|].
  now destruct (String.eqb k0 k').
Qed.

Lemma own_assign_ne (o : object) (k k' : string) (v : value) :
  k <> k' -> own (assign o k v) k' = own o k'.
Proof.
  intros Hne. unfold assign. destruct (own o k) eqn:Ek.
  - now apply own_replace_ne.
  - destruct (String.eqb k "__proto__"); [reflexivity|].
    rewrite own_app, (eqb_neq_false k k' Hne). now destruct (own o k').
Qed.

(** A key that reads as defined and is not inherited is an own property. *)
Lemma defined_is_own (o : object) (k : string) :
  is_undefined o k = false -> inherited k = false ->
  exists v, own o k = Some v /\ v <> undefined.
Proof.
  unfold is_undefined. intros Hd Hi. destruct (own o k) as [v|].
  - exists v. split; [reflexivity|]. now destruct v.
  - rewrite Hi in Hd. discriminate.
Qed.

Lemma own_assign_eq (o : object) (k : string) (v : value) :
  is_undefined o k = false -> k <> "__proto__" ->
  own (assign o k v) k = Some v.
Proof.
  intros Hd Hp. unfold assign. destruct (own o k) eqn:Ek.
  - apply own_replace_eq. congruence.
  - rewrite (eqb_neq_false _ _ Hp), own_app, Ek.
    now rewrite String.eqb_refl.
Qed.

Lemma is_undefined_assign_ne (o : object) (k k' : string) (v : value) :
  k <> k' -> is_undefined (assign o k v) k' = is_undefined o k'.
Proof.
  intros Hne. unfold is_undefined. now rewrite own_assign_ne.
Qed.

Lemma get_assign_ne (o : object) (k k' : string) (v : value) :
  k <> k' -> get (assign o k v) k' = get o k'.
Proof. intros Hne. unfold get. now rewrite own_assign_ne. Qed.

Lemma get_assign_eq (o : object) (k : string) (v : value) :
  is_undefined o k = false -> k <> "__proto__" -> get (assign o k v) k = v.
Proof. intros Hd Hp. unfold get. now rewrite own_assign_eq. Qed.

End ObjectFacts.

(** ** SVGForm: the style map *)

Section StyleFacts.
Import JS Dom Text SVGForm.
Context `{E : Externals}.

Lemma styleTo_defined (k : string) (v : value) (w : world) :
  is_undefined (style_in w) k = false ->
  prototype.styleTo k v w =
    (Return tt,
     snd (update_ctx (Context.set_style (assign (style_in w) k v)) w)).
Proof.
  intros Hd. destruct w as [f pg]. unfold prototype.styleTo, bind, this_ctx.
  simpl. unfold style_in, ctx_of in Hd. simpl in Hd. rewrite Hd. reflexivity.
Qed.

Lemma styleTo_undefined (k : string) (v : value) (w : world) :
  is_undefined (style_in w) k = true ->
  prototype.styleTo k v w = (Throw (k +:+ " style property doesn't exist"), w).
Proof.
  intros Hd. destruct w as [f pg]. unfold prototype.styleTo, bind, this_ctx.
  simpl. unfold style_in, ctx_of in Hd. simpl in Hd. rewrite Hd. reflexivity.
Qed.

Lemma style_in_update (o : object) (w : world) :
  style_in (snd (update_ctx (Context.set_style o) w)) = o.
Proof. destruct w. reflexivity. Qed.

Lemma page_update (o : object) (w : world) :
  snd (snd (update_ctx (Context.set_style o) w)) = snd w.
Proof. destruct w. reflexivity. Qed.

Lemma group_update (o : object) (w : world) :
  Context.group (ctx_of (snd (update_ctx (Context.set_style o) w))) =
  Context.group (ctx_of w).
Proof. destruct w. reflexivity. Qed.

(** A key that is neither an own property of the style map nor inherited
    is refused, and the world stays as it was. *)
Lemma styleTo_unknown_key_throws (k : string) (v : value) (w : world) :
  own (style_in w) k = None -> inherited k = false ->
  prototype.styleTo k v w = (Throw (k +:+ " style property doesn't exist"), w).
Proof.
  intros Ho Hi. apply styleTo_undefined. unfold is_undefined.
  now rewrite Ho, Hi.
Qed.

(** A key that the style map inherits and does not own is accepted. *)
Lemma styleTo_inherited_key_returns (k : string) (v : value) (w : world) :
  own (style_in w) k = None -> inherited k = true ->
  fst (prototype.styleTo k v w) = Return tt.
Proof.
  intros Ho Hi. rewrite styleTo_defined; [reflexivity|].
  unfold is_undefined. now rewrite Ho, Hi.
Qed.

(** A key whose entry is defined is updated in place. *)
Lemma styleTo_known_key_updates (k : string) (v : value) (w : world) :
  is_undefined (style_in w) k = false -> inherited k = false ->
  fst (prototype.styleTo k v w) = Return tt /\
  get (style_in (snd (prototype.styleTo k v w))) k = v /\
  (forall k', k' <> k ->
     own (style_in (snd (prototype.styleTo k v w))) k' = own (style_in w) k').
Proof.
  intros Hd Hi. rewrite styleTo_defined by assumption. cbn [fst snd].
  rewrite style_in_update. split; [reflexivity|]. split.
  - apply get_assign_eq; [assumption|]. intros ->. discriminate.
  - intros k' Hne. apply own_assign_ne. congruence.
Qed.

End StyleFacts.

(** ** The document *)

Section DomFacts.
Import JS Dom Text SVGForm.
Context `{E : Externals}.

Lemma getID_returns (ctx : Context.DrawContext) (pg : page) :
  exists id pg1,
    getID ctx pg = (Return id, pg1) /\ document pg1 = document pg /\
    (Context.currentID ctx <> "" -> id = Context.currentID ctx /\ pg1 = pg).
Proof.
  unfold getID. destruct (String.eqb (Context.currentID ctx) "") eqn:Eid.
  - eexists _, _. split; [reflexivity|]. split; [reflexivity|].
    apply String.eqb_eq in Eid. congruence.
  - eexists _, _. split; [reflexivity|]. split; [reflexivity|]. auto.
Qed.

Lemma svgElement_Some (g : node) (name id : string) (pg : page) :
  SVGSpace.svgElement (Some g) name id pg =
  (Return id,
   match document pg !! id with
   | Some _ => pg
   | None =>
       set_document (insert id (mkElement name g {[ "id" := id ]} "")) pg
   end).
Proof.
  unfold SVGSpace.svgElement, bind, gets.
  now destruct (document pg !! id).
Qed.

Lemma style_returns (elem : string) (styles : object) (pg : page) :
  own styles "hasOwnProperty" = None ->
  style elem styles pg =
  (Return elem,
   set_document
     (alter (setAttributes [("style", style_text styles)]) elem) pg).
Proof.
  intros Ho. unfold style. destruct styles; [reflexivity|].
  now rewrite Ho.
Qed.

Lemma style_throws (elem : string) (styles : object) (pg : page) (v : value) :
  own styles "hasOwnProperty" = Some v ->
  style elem styles pg =
  (Throw "styles.hasOwnProperty is not a function", pg).
Proof.
  intros Ho. unfold style. destruct styles; [discriminate|].
  now rewrite Ho.
Qed.

(** The element a draw function finds under [id], or else creates. *)
Lemma found_or_created (g : node) (name id : string) (pg : page) :
  document
    (match document pg !! id with
     | Some _ => pg
     | None =>
         set_document (insert id (mkElement name g {[ "id" := id ]} "")) pg
     end) !! id =
  Some (default (mkElement name g {[ "id" := id ]} "") (document pg !! id)).
Proof.
  destruct (document pg !! id) eqn:Eg; simpl.
  - exact Eg.
  - apply lookup_insert_eq.
Qed.

Lemma found_or_created_others (g : node) (name id id' : string) (pg : page) :
  id' <> id ->
  document
    (match document pg !! id with
     | Some _ => pg
     | None =>
         set_document (insert id (mkElement name g {[ "id" := id ]} "")) pg
     end) !! id' = document pg !! id'.
Proof.
  intros Hne. destruct (document pg !! id); simpl; [reflexivity|].
  now apply lookup_insert_ne.
Qed.

(** The steps every draw function takes: it gets the id, finds or creates
    the element, sets the attributes [data] and then the style. *)
Lemma draw_element_steps {A} (name : string) (data : list (string * string))
    (k : string -> M page A) (ctx : Context.DrawContext) (pg pg1 : page)
    (g : node) (id : string) :
  Context.group ctx = Some g ->
  own (Context.style ctx) "hasOwnProperty" = None ->
  getID ctx pg = (Return id, pg1) ->
  exists pg2,
    (id0 <- getID ctx ;;
     elem <- SVGSpace.svgElement (Context.group ctx) name id0 ;;
     setAttr elem data ;;;
     style elem (Context.style ctx) ;;;
     k elem) pg = k id pg2 /\
    document pg2 !! id =
      Some (setAttributes
              (data ++ [("style", style_text (Context.style ctx))])
              (default (mkElement name g {[ "id" := id ]} "")
                 (document pg1 !! id))) /\
    (forall id', id' <> id -> document pg2 !! id' = document pg1 !! id').
Proof.
  intros Hg Hs Hid. unfold bind at 1. rewrite Hid, Hg. cbv beta iota.
  unfold bind at 1. rewrite svgElement_Some. cbv beta iota.
  unfold bind at 1. unfold setAttr at 1, bind at 1, modify, ret.
  cbv beta iota. unfold bind at 1. rewrite style_returns by assumption.
  cbv beta iota. eexists. split; [reflexivity|]. split.
  - simpl. rewrite !lookup_alter_eq, found_or_created. simpl.
    unfold setAttributes. now rewrite fold_left_app.
  - intros id' Hne. simpl. rewrite !lookup_alter_ne by congruence.
    now apply found_or_created_others.
Qed.

End DomFacts.

(** ** SVGForm: arcs and lines *)

Section DrawFacts.
Import JS Dom Text SVGForm.
Context `{E : Externals}.

Lemma numToString_proper (p q : Q) : p == q -> numToString p = numToString q.
Proof. intros H. unfold numToString. now rewrite (Qred_complete p q H). Qed.

Lemma tagName_setAttributes (data : list (string * string)) (e : Element) :
  tagName (setAttributes data e) = tagName e.
Proof.
  unfold setAttributes. revert e.
  induction data as [|[k v] data IH]; intros e; simpl; [reflexivity|].
  now rewrite IH.
Qed.

Lemma getID_document (ctx : Context.DrawContext) (pg pg1 : page) (id : string) :
  getID ctx pg = (Return id, pg1) -> document pg1 = document pg.
Proof.
  intros H. destruct (getID_returns ctx pg) as (id' & pg' & Heq & Hdoc & _).
  congruence.
Qed.

End DrawFacts.

(** ** SVGForm: the path of an arc *)

Section ArcFacts.
Import Floats.
Import JS Dom Text SVGForm.
Context `{E : Externals}.


End ArcFacts.

Section LineFacts.
Import JS Dom Text SVGForm.
Context `{E : Externals}.

Lemma checkSize_true (pts : list Form.Pt) :
  (2 <= List.length pts)%nat -> Form._checkSize pts = true.
Proof. intros H. unfold Form._checkSize. now apply Nat.leb_le. Qed.

Lemma checkSize_false (pts : list Form.Pt) :
  (List.length pts < 2)%nat -> Form._checkSize pts = false.
Proof. intros H. unfold Form._checkSize. now apply Nat.leb_gt. Qed.

(** A draw function throws once it finds the parent invalid. *)
Lemma invalid_parent_throws {A} (name : string) (k : string -> M page A)
    (ctx : Context.DrawContext) (pg : page) :
  Context.group ctx = None ->
  fst ((id0 <- getID ctx ;;
        elem <- SVGSpace.svgElement (Context.group ctx) name id0 ;;
        k elem) pg) = Throw "parent is not a valid DOM element".
Proof.
  intros Hg. destruct (getID_returns ctx pg) as (id & pg1 & Hid & _).
  unfold bind at 1. rewrite Hid, Hg. reflexivity.
Qed.

(** [_poly] on two or more points and a valid parent. *)
Lemma poly_draws (ctx : Context.DrawContext) (pts : list Form.Pt)
    (closePath : bool) (pg pg1 : page) (g : node) (id : string) :
  (2 <= List.length pts)%nat ->
  Context.group ctx = Some g ->
  own (Context.style ctx) "hasOwnProperty" = None ->
  getID ctx pg = (Return id, pg1) ->
  exists pg' e,
    _poly ctx pts closePath pg = (Return (Some id), pg') /\
    document pg' !! id = Some e /\
    tagName e =
      match document pg !! id with
      | Some e0 => tagName e0
      | None => if closePath then "polygon" else "polyline"
      end /\
    attributes e !! "points" =
      Some (fold_left
              (fun a p => a +:+ numToString (fst p) +:+ ","
                            +:+ numToString (snd p) +:+ " ") pts "") /\
    (forall id', id' <> id -> document pg' !! id' = document pg !! id').
Proof.
  intros Hlen Hg Hs Hid. unfold _poly.
  rewrite (checkSize_true pts Hlen). cbn [negb].
  destruct (draw_element_steps (if closePath then "polygon" else "polyline")
              [("points",
                fold_left
                  (fun a p => a +:+ numToString (fst p) +:+ ","
                                +:+ numToString (snd p) +:+ " ") pts "");
               ("class", "pts-svgform pts-polygon "
                           +:+ Context.currentClass ctx)]
              (fun elem => ret (Some elem)) ctx pg pg1 g id Hg Hs Hid)
    as (pg2 & Hrun & Hlook & Hothers).
  rewrite (getID_document ctx pg pg1 id Hid) in Hlook, Hothers.
  eexists pg2, _. split; [exact Hrun|]. split; [exact Hlook|].
  split; [|split; [|exact Hothers]].
  - rewrite tagName_setAttributes. now destruct (document pg !! id).
  - simpl. rewrite lookup_insert_ne by discriminate.
    rewrite lookup_insert_ne by discriminate. apply lookup_insert_eq.
Qed.

(** C8, amended: [SVGForm.line] draws nothing for fewer than two points; for
    two points and a valid parent it sets x1, y1, x2 and y2 on the element
    of the current id, which is a new line element only when the document
    has no element of that id; for more than two points it is [_poly] with
    the path left open, which sets [points] on the element of the current
    id, a new polyline element only when the document has none of that id.
    An element found under the id is reused with the tag it has. *)
Theorem line_dispatch (ctx : Context.DrawContext) (pts : list Form.Pt)
    (pg : page) :
  ((List.length pts < 2)%nat -> line ctx pts pg = (Return None, pg)) /\
  (forall p0 p1 pg1 g id,
     pts = [p0; p1] ->
     Context.group ctx = Some g ->
     own (Context.style ctx) "hasOwnProperty" = None ->
     getID ctx pg = (Return id, pg1) ->
     exists pg' e,
       line ctx pts pg = (Return (Some id), pg') /\
       document pg' !! id = Some e /\
       tagName e =
         match document pg !! id with
         | Some e0 => tagName e0
         | None => "line"
         end /\
       attributes e !! "x1" = Some (numToString (fst p0)) /\
       attributes e !! "y1" = Some (numToString (snd p0)) /\
       attributes e !! "x2" = Some (numToString (fst p1)) /\
       attributes e !! "y2" = Some (numToString (snd p1)) /\
       (forall id', id' <> id -> document pg' !! id' = document pg !! id')) /\
  ((2 < List.length pts)%nat ->
   line ctx pts pg = _poly ctx pts false pg /\
   forall pg1 g id,
     Context.group ctx = Some g ->
     own (Context.style ctx) "hasOwnProperty" = None ->
     getID ctx pg = (Return id, pg1) ->
     exists pg' e,
       line ctx pts pg = (Return (Some id), pg') /\
       document pg' !! id = Some e /\
       tagName e =
         match document pg !! id with
         | Some e0 => tagName e0
         | None => "polyline"
         end /\
       attributes e !! "points" =
         Some (fold_left
                 (fun a p => a +:+ numToString (fst p) +:+ ","
                               +:+ numToString (snd p) +:+ " ") pts "") /\
       (forall id', id' <> id -> document pg' !! id' = document pg !! id')) /\
  ((2 <= List.length pts)%nat -> Context.group ctx = None ->
   fst (line ctx pts pg) = Throw "parent is not a valid DOM element").
Proof.
  split; [|split; [|split]].
  - intros Hlen. unfold line. now rewrite (checkSize_false pts Hlen).
  - intros p0 p1 pg1 g id -> Hg Hs Hid. unfold line.
    cbn [Form._checkSize List.length Nat.leb Nat.ltb negb].
    destruct (draw_element_steps "line"
                [("x1", numToString (fst p0)); ("y1", numToString (snd p0));
                 ("x2", numToString (fst p1)); ("y2", numToString (snd p1));
                 ("class", "pts-svgform pts-line "
                             +:+ Context.currentClass ctx)]
                (fun elem => ret (Some elem)) ctx pg pg1 g id Hg Hs Hid)
      as (pg2 & Hrun & Hlook & Hothers).
    rewrite (getID_document ctx pg pg1 id Hid) in Hlook, Hothers.
    eexists pg2, _. split; [exact Hrun|]. split; [exact Hlook|].
    split; [|repeat split].
    + rewrite tagName_setAttributes. now destruct (document pg !! id).
    + simpl. rewrite !lookup_insert_ne by discriminate.
      apply lookup_insert_eq.
    + simpl. rewrite !lookup_insert_ne by discriminate.
      apply lookup_insert_eq.
    + simpl. rewrite !lookup_insert_ne by discriminate.
      apply lookup_insert_eq.
    + simpl. rewrite !lookup_insert_ne by discriminate.
      apply lookup_insert_eq.
    + exact Hothers.
  - intros Hlen.
    assert (Hline : line ctx pts pg = _poly ctx pts false pg).
    { unfold line. rewrite (checkSize_true pts) by lia. cbn [negb].
      apply Nat.ltb_lt in Hlen. now rewrite Hlen. }
    split; [exact Hline|]. intros pg1 g id Hg Hs Hid. rewrite Hline.
    apply (poly_draws ctx pts false pg pg1 g id); [lia|assumption..].
  - intros Hlen Hg. unfold line. rewrite (checkSize_true pts Hlen).
    cbn [negb]. destruct (2 <? List.length pts)%nat.
    + unfold _poly. rewrite (checkSize_true pts Hlen). cbn [negb].
      now apply invalid_parent_throws.
    + destruct pts as [|p0 [|p1 pts]]; simpl in Hlen; try lia.
      now apply invalid_parent_throws.
Qed.

End LineFacts.

(** ** SVGForm: every draw writes the style of the context *)

Section StyledFacts.
Import JS Dom Text SVGForm.
Context `{E : Externals}.

Lemma joined_id_nonempty (a b : string) : a +:+ "-" +:+ b <> "".
Proof. now destruct a. Qed.

Lemma getID_current (ctx : Context.DrawContext) (pg : page) :
  Context.currentID ctx <> "" ->
  getID ctx pg = (Return (Context.currentID ctx), pg).
Proof.
  intros Hne. unfold getID.
  destruct (String.eqb (Context.currentID ctx) "") eqn:Eid; [|reflexivity].
  apply String.eqb_eq in Eid. contradiction.
Qed.

Lemma style_attribute_last (data : list (string * string)) (s : string)
    (e : Element) :
  attributes (setAttributes (data ++ [("style", s)]) e) !! "style" = Some s.
Proof.
  unfold setAttributes. rewrite fold_left_app. simpl.
  apply lookup_insert_eq.
Qed.

(** A draw function of the common shape writes the style text. *)
Lemma steps_styled {A} (name : string) (data : list (string * string))
    (f : string -> A) (ctx : Context.DrawContext) (pg : page) (g : node) :
  Context.group ctx = Some g ->
  own (Context.style ctx) "hasOwnProperty" = None ->
  Context.currentID ctx <> "" ->
  styled
    (id0 <- getID ctx ;;
     elem <- SVGSpace.svgElement (Context.group ctx) name id0 ;;
     setAttr elem data ;;;
     style elem (Context.style ctx) ;;;
     ret (f elem))
    pg (Context.currentID ctx) (style_text (Context.style ctx)).
Proof.
  intros Hg Hs Hid.
  destruct (draw_element_steps name data (fun elem => ret (f elem)) ctx pg pg
              g (Context.currentID ctx) Hg Hs (getID_current ctx pg Hid))
    as (pg2 & Hrun & Hlook & _).
  unfold styled. eexists _, pg2, _. split; [exact Hrun|].
  split; [exact Hlook|]. apply style_attribute_last.
Qed.

(** So does [text], which sets the text content in between. *)
Lemma text_styled (ctx : Context.DrawContext) (pt : Form.Pt) (txt : string)
    (pg : page) (g : node) :
  Context.group ctx = Some g ->
  own (Context.style ctx) "hasOwnProperty" = None ->
  Context.currentID ctx <> "" ->
  styled (SVGForm.text ctx pt txt) pg (Context.currentID ctx)
    (style_text (Context.style ctx)).
Proof.
  intros Hg Hs Hid. unfold styled, SVGForm.text.
  unfold bind at 1. rewrite (getID_current ctx pg Hid), Hg. cbv beta iota.
  unfold bind at 1. rewrite svgElement_Some. cbv beta iota.
  unfold bind at 1, setAttr at 1, bind at 1, modify at 1, ret at 1.
  cbv beta iota. unfold bind at 1, modify at 1. cbv beta iota.
  unfold bind at 1. rewrite style_returns by assumption. cbv beta iota.
  eexists _, _, _. split; [reflexivity|]. simpl.
  rewrite !lookup_alter_eq, found_or_created. simpl. split; [reflexivity|].
  apply lookup_insert_eq.
Qed.

(** A method that advances the id and hands the context to a static draw
    function returns what that function leaves on the page. *)
Lemma method_styled {A} (draw_static : Context.DrawContext -> M page A)
    (w : world) (s : string) :
  let w1 := snd (prototype.nextID w) in
  styled (draw_static (ctx_of w1)) (snd w) (Context.currentID (ctx_of w1)) s ->
  let r := (prototype.nextID ;;; ctx <- this_ctx ;;
            on_snd (draw_static ctx) ;;; ret tt) w in
  fst r = Return tt /\
  exists e,
    document (snd (snd r)) !! Context.currentID (ctx_of (snd r)) = Some e /\
    attributes e !! "style" = Some s.
Proof.
  destruct w as [f pg]. cbv zeta. intros (a & pg' & e & Hrun & He & Hs).
  set (w1 := snd (prototype.nextID (f, pg))) in *.
  assert (Hr : (prototype.nextID ;;; ctx <- this_ctx ;;
                on_snd (draw_static ctx) ;;; ret tt) (f, pg)
               = (Return tt, (fst w1, pg'))).
  { unfold bind at 1.
    change (prototype.nextID (f, pg))
      with (Return (Context.currentID (ctx_of w1)), w1).
    cbv beta iota. unfold bind at 1, this_ctx, gets. cbv beta iota.
    unfold bind at 1. fold (ctx_of w1).
    change (snd (f, pg)) with (snd w1) in Hrun.
    now rewrite (on_snd_Return _ _ _ _ Hrun). }
  rewrite Hr. split; [reflexivity|]. exists e.
  split; [exact He | exact Hs].
Qed.

Lemma nextID_group (w : world) :
  Context.group (ctx_of (snd (prototype.nextID w))) = Context.group (ctx_of w).
Proof. now rewrite nextID_ctx. Qed.

Lemma nextID_style (w : world) :
  Context.style (ctx_of (snd (prototype.nextID w))) = style_in w.
Proof. now rewrite nextID_ctx. Qed.

Lemma nextID_currentID (w : world) :
  Context.currentID (ctx_of (snd (prototype.nextID w))) <> "".
Proof. rewrite nextID_ctx. apply joined_id_nonempty. Qed.

(** A draw call that has its points, a valid parent and a style map that
    can be enumerated returns, and the element under the new id carries the
    style text of the style map. *)
Lemma call_writes_style (d : draw) (w : world) (g : node) :
  draws d = true ->
  Context.group (ctx_of w) = Some g ->
  own (style_in w) "hasOwnProperty" = None ->
  fst (call d w) = Return tt /\
  exists e,
    document (snd (snd (call d w)))
      !! Context.currentID (ctx_of (snd (call d w))) = Some e /\
    attributes e !! "style" = Some (style_text (style_in w)).
Proof.
  intros Hd Hg Hs.
  pose proof (nextID_group w) as Hg1. rewrite Hg in Hg1.
  pose proof (nextID_style w) as Hs1.
  pose proof (nextID_currentID w) as Hid1.
  assert (Hs1' : own (Context.style (ctx_of (snd (prototype.nextID w))))
                   "hasOwnProperty" = None) by now rewrite Hs1.
  rewrite <- Hs1.
  destruct d; cbn [draws] in Hd; unfold call.
  - (* point *)
    unfold prototype.point. cbv zeta. apply method_styled.
    unfold SVGForm.point. cbv zeta.
    match goal with |- context [if ?b then _ else _] => destruct b end.
    + unfold circle. cbv zeta. now apply (steps_styled "circle") with (g := g).
    + unfold square. now apply (steps_styled "rect") with (g := g).
  - (* circle *)
    destruct pts as [|p0 [|p1 pts]]; try (simpl in Hd; discriminate).
    unfold prototype.circle.
    apply (method_styled (fun ctx => circle ctx p0 (Some (fst p1)))).
    unfold circle. cbv zeta. now apply (steps_styled "circle") with (g := g).
  - (* arc *)
    unfold prototype.arc. apply method_styled.
    unfold arc. cbv zeta. now apply (steps_styled "path") with (g := g).
  - (* square *)
    unfold prototype.square. apply method_styled.
    unfold square. now apply (steps_styled "rect") with (g := g).
  - (* line *)
    apply Nat.leb_le in Hd.
    unfold prototype.line. apply method_styled. unfold line.
    rewrite (checkSize_true pts Hd). cbn [negb].
    destruct (2 <? List.length pts)%nat.
    + unfold _poly. rewrite (checkSize_true pts Hd). cbn [negb]. cbv zeta.
      now apply (steps_styled "polyline") with (g := g).
    + destruct pts as [|p0 [|p1 pts]]; simpl in Hd; try lia.
      now apply (steps_styled "line") with (g := g).
  - (* polygon *)
    apply Nat.leb_le in Hd.
    unfold prototype.polygon. apply method_styled. unfold polygon, _poly.
    rewrite (checkSize_true pts Hd). cbn [negb]. cbv zeta.
    now apply (steps_styled "polygon") with (g := g).
  - (* rect *)
    apply Nat.leb_le in Hd.
    unfold prototype.rect. apply method_styled. unfold rect.
    rewrite (checkSize_true pts Hd). cbn [negb]. cbv zeta.
    now apply (steps_styled "rect") with (g := g).
  - (* text *)
    unfold prototype.text. apply method_styled.
    now apply (text_styled _ pt txt (snd w) g).
Qed.

End StyledFacts.

(** ** SVGForm: reset, styleTo and log *)

Section ResetFacts.
Import JS Dom Text SVGForm.
Context `{E : Externals}.

(** C5: what [reset] leaves behind.  The style map holds the seven
    defaults, but its line cap is the misspelt "sqaure" and not "square";
    the font is [new Font(14, "sans-serif")], while the [fontSize] and
    [fontFamily] of the context stay as they were. *)
Theorem reset_linecap_misspelt (w : world) :
  let w' := snd (prototype.reset w) in
  fst (prototype.reset w) = Return tt /\
  style_in w' =
    [("filled", boolean true); ("stroked", boolean true);
     ("fill", str "#f03"); ("stroke", str "#fff");
     ("stroke-width", number 1); ("stroke-linejoin", str "bevel");
     ("stroke-linecap", str "sqaure")] /\
  get (style_in w') "stroke-linecap" = str "sqaure" /\
  get (style_in w') "stroke-linecap" <> str "square" /\
  Form.size (_font (fst w')) = 14 /\
  Form.face (_font (fst w')) = "sans-serif" /\
  Context.font (ctx_of w') = Font_value (new_Font 14 "sans-serif") /\
  Context.fontSize (ctx_of w') = Context.fontSize (ctx_of w) /\
  Context.fontFamily (ctx_of w') = Context.fontFamily (ctx_of w).
Proof.
  destruct w as [f pg]. cbv zeta. repeat split. discriminate.
Qed.

Lemma call_keeps_style (d : draw) (w : world) :
  style_in (snd (call d w)) = style_in w.
Proof.
  unfold style_in, ctx_of at 1. rewrite call_frame.
  fold (ctx_of (snd (prototype.nextID w))). now rewrite nextID_ctx.
Qed.

Lemma update_style_twice (o o' : object) (w : world) :
  snd (update_ctx (Context.set_style o')
         (snd (update_ctx (Context.set_style o) w))) =
  snd (update_ctx (Context.set_style o') w).
Proof. destruct w. reflexivity. Qed.

(** [styleTo] either finds the entry defined and replaces it or throws. *)
Lemma styleTo_cases (k : string) (v : value) (w : world) :
  (is_undefined (style_in w) k = false /\
   prototype.styleTo k v w =
     (Return tt,
      snd (update_ctx (Context.set_style (assign (style_in w) k v)) w))) \/
  (exists e, prototype.styleTo k v w = (Throw e, w)).
Proof.
  destruct (is_undefined (style_in w) k) eqn:Hd.
  - right. eexists. now apply styleTo_undefined.
  - left. split; [reflexivity|]. now apply styleTo_defined.
Qed.

(** The style map [log] writes before it draws. *)
Lemma overlay_style_entries (o : object) :
  let o' :=
    assign (assign (assign (assign (assign o "filled" (boolean true))
      "fill" (str "#000")) "stroked" (boolean true)) "stroke" (str "#fff"))
      "stroke-width" (number 0.5) in
  is_undefined o "filled" = false -> is_undefined o "fill" = false ->
  is_undefined o "stroked" = false -> is_undefined o "stroke" = false ->
  is_undefined o "stroke-width" = false ->
  get o' "filled" = boolean true /\ get o' "fill" = str "#000" /\
  get o' "stroked" = boolean true /\ get o' "stroke" = str "#fff" /\
  get o' "stroke-width" = number 0.5 /\
  own o' "hasOwnProperty" = own o "hasOwnProperty".
Proof.
  cbv zeta. intros H1 H2 H3 H4 H5.
  repeat match goal with
  | |- _ /\ _ => split
  | |- get (assign _ ?k _) ?k = _ => apply get_assign_eq; [|discriminate]
  | |- get (assign _ ?k _) _ = _ => rewrite get_assign_ne by discriminate
  | |- own (assign _ _ _) _ = _ => rewrite own_assign_ne by discriminate
  | |- is_undefined (assign _ _ _) _ = _ =>
      rewrite is_undefined_assign_ne by discriminate
  | |- _ => assumption || reflexivity
  end.
Qed.

End ResetFacts.

Section LogFacts.
Import JS Dom Text SVGForm.
Context `{E : Externals}.

Lemma bind_assoc {S A B C} (m : M S A) (k : A -> M S B) (h : B -> M S C)
    (s : S) :
  bind (bind m k) h s = bind m (fun a => bind (k a) h) s.
Proof. unfold bind. now destruct (m s) as [[a|e] s']. Qed.

Lemma bind_ret {S A B} (a : A) (k : A -> M S B) (s : S) :
  bind (ret a) k s = k a s.
Proof. reflexivity. Qed.

(** [styleTo] followed by more: the rest runs on the updated style map, or
    not at all. *)
Lemma styleTo_then {A} (k : string) (v : value) (m : unit -> M world A)
    (w : world) :
  bind (prototype.styleTo k v) m w =
  if is_undefined (style_in w) k
  then (Throw (k +:+ " style property doesn't exist"), w)
  else m tt (snd (update_ctx (Context.set_style (assign (style_in w) k v)) w)).
Proof.
  destruct (is_undefined (style_in w) k) eqn:Hd.
  - apply bind_Throw. now apply styleTo_undefined.
  - erewrite bind_Return; [reflexivity|]. now apply styleTo_defined.
Qed.

(** [log] sets the five overlay entries and then draws the text, unless one
    of the entries reads as undefined, in which case it throws. *)
Lemma log_steps (txt : string) (w : world) :
  let o := style_in w in
  let o' :=
    assign (assign (assign (assign (assign o
      "filled" (boolean true)) "fill" (str "#000"))
      "stroked" (boolean true)) "stroke" (str "#fff"))
      "stroke-width" (number 0.5) in
  (is_undefined o "filled" = false /\ is_undefined o "fill" = false /\
   is_undefined o "stroked" = false /\ is_undefined o "stroke" = false /\
   is_undefined o "stroke-width" = false /\
   prototype.log txt w =
     prototype.text (10, 14) txt
       (snd (update_ctx (Context.set_style o') w))) \/
  ((is_undefined o "filled" = true \/ is_undefined o "fill" = true \/
    is_undefined o "stroked" = true \/ is_undefined o "stroke" = true \/
    is_undefined o "stroke-width" = true) /\
   exists e, fst (prototype.log txt w) = Throw e).
Proof.
  cbv zeta. unfold prototype.log, prototype.fill, prototype.stroke.
  cbn [is_boolean].
  change (truthy (number 0.5)) with true.
  change (truthy undefined) with false. cbv iota.
  repeat (rewrite ?bind_assoc, ?styleTo_then, ?style_in_update,
            ?update_style_twice, ?bind_ret; cbv beta).
  rewrite !is_undefined_assign_ne by discriminate.
  destruct (is_undefined (style_in w) "filled");
    [right; split; [auto | eexists; reflexivity]|].
  destruct (is_undefined (style_in w) "fill");
    [right; split; [auto | eexists; reflexivity]|].
  destruct (is_undefined (style_in w) "stroked");
    [right; split; [auto | eexists; reflexivity]|].
  destruct (is_undefined (style_in w) "stroke");
    [right; split; [auto | eexists; reflexivity]|].
  destruct (is_undefined (style_in w) "stroke-width");
    [right; split; [auto 6 | eexists; reflexivity]|].
  left. repeat split; reflexivity.
Qed.

(** The static [text] returns when the parent is valid and the style map
    can be enumerated. *)
Lemma static_text_returns (ctx : Context.DrawContext) (pt : Form.Pt)
    (txt : string) (pg : page) (g : node) :
  Context.group ctx = Some g ->
  own (Context.style ctx) "hasOwnProperty" = None ->
  exists id pg', SVGForm.text ctx pt txt pg = (Return id, pg').
Proof.
  intros Hg Hs. destruct (getID_returns ctx pg) as (id & pg1 & Hid & _).
  unfold SVGForm.text. unfold bind at 1. rewrite Hid, Hg. cbv beta iota.
  unfold bind at 1. rewrite svgElement_Some. cbv beta iota.
  unfold bind at 1, setAttr at 1, bind at 1, modify at 1, ret at 1.
  cbv beta iota. unfold bind at 1, modify at 1. cbv beta iota.
  unfold bind at 1. rewrite style_returns by assumption. cbv beta iota.
  eexists _, _. reflexivity.
Qed.

Lemma text_returns (pt : Form.Pt) (txt : string) (w : world) (g : node) :
  Context.group (ctx_of w) = Some g ->
  own (style_in w) "hasOwnProperty" = None ->
  fst (prototype.text pt txt w) = Return tt.
Proof.
  intros Hg Hs. destruct w as [f pg]. unfold prototype.text.
  unfold bind at 1. cbn [prototype.nextID]. 
  set (w1 := snd (prototype.nextID (f, pg))).
  assert (Hn : prototype.nextID (f, pg) =
               (Return (Context.currentID (ctx_of w1)), w1)) by reflexivity.
  rewrite Hn. cbv beta iota. unfold bind at 1, this_ctx, gets.
  cbv beta iota.
  destruct (static_text_returns (_ctx (fst w1)) pt txt (snd w1) g)
    as (id & pg' & Hrun).
  - exact Hg.
  - exact Hs.
  - unfold bind at 1. erewrite on_snd_Return by exact Hrun. reflexivity.
Qed.

(** C10: [log] leaves its overlay style in the context.  When it returns,
    the style map has filled = true, fill = "#000", stroked = true,
    stroke = "#fff" and stroke-width = 0.5; it does return when those five
    entries were defined, the parent is valid and the style map can be
    enumerated; no draw call changes the style map afterwards; and a draw
    call that follows writes the style text of that map onto its element. *)
Theorem log_leaves_overlay_style (txt : string) (w : world) :
  let w' := snd (prototype.log txt w) in
  (fst (prototype.log txt w) = Return tt ->
   get (style_in w') "filled" = boolean true /\
   get (style_in w') "fill" = str "#000" /\
   get (style_in w') "stroked" = boolean true /\
   get (style_in w') "stroke" = str "#fff" /\
   get (style_in w') "stroke-width" = number 0.5) /\
  (is_undefined (style_in w) "filled" = false ->
   is_undefined (style_in w) "fill" = false ->
   is_undefined (style_in w) "stroked" = false ->
   is_undefined (style_in w) "stroke" = false ->
   is_undefined (style_in w) "stroke-width" = false ->
   Context.group (ctx_of w) <> None ->
   own (style_in w) "hasOwnProperty" = None ->
   fst (prototype.log txt w) = Return tt) /\
  (forall d, style_in (snd (call d w')) = style_in w') /\
  (forall d g,
     draws d = true ->
     Context.group (ctx_of w') = Some g ->
     own (style_in w') "hasOwnProperty" = None ->
     fst (call d w') = Return tt /\
     exists e,
       document (snd (snd (call d w')))
         !! Context.currentID (ctx_of (snd (call d w'))) = Some e /\
       attributes e !! "style" = Some (style_text (style_in w'))).
Proof.
  cbv zeta. split; [|split; [|split]].
  - intros Hret.
    destruct (log_steps txt w) as [(H1 & H2 & H3 & H4 & H5 & Hlog)|[_ [e He]]];
      [|congruence].
    rewrite Hlog.
    change (prototype.text (10, 14) txt) with (call (Text (10, 14) txt)).
    rewrite call_keeps_style, style_in_update.
    destruct (overlay_style_entries (style_in w) H1 H2 H3 H4 H5)
      as (G1 & G2 & G3 & G4 & G5 & _).
    auto.
  - intros H1 H2 H3 H4 H5 Hg Hs.
    destruct (log_steps txt w) as [(_ & _ & _ & _ & _ & Hlog)|[Hu _]].
    + rewrite Hlog.
      destruct (Context.group (ctx_of w)) as [g|] eqn:Eg; [|congruence].
      apply (text_returns _ _ _ g).
      * now rewrite group_update.
      * rewrite style_in_update.
        destruct (overlay_style_entries (style_in w) H1 H2 H3 H4 H5)
          as (_ & _ & _ & _ & _ & G6).
        now rewrite G6.
    + exfalso. intuition congruence.
  - intros d. apply call_keeps_style.
  - intros d g. apply call_writes_style.
Qed.

End LogFacts.

(** ** Runs on the sample form *)

Section Runs.
Import JS Dom Text SVGForm.

(** C6: a key inherited from [Object.prototype] is none of the seven style
    keys, yet [styleTo] accepts it on a new form and adds it to the style
    map; and an entry once set to [undefined] is refused from then on. *)
Theorem styleTo_accepts_inherited_key (E : Externals)
    (space : SVGSpace.SVGSpace) (pg : page) (v : value) :
  let w := (constructor space, pg) in
  let w1 := snd (prototype.styleTo "constructor" v w) in
  let w2 := snd (prototype.styleTo "fill" undefined w) in
  map fst (style_in w) =
    ["filled"; "stroked"; "fill"; "stroke"; "stroke-width";
     "stroke-linejoin"; "stroke-linecap"] /\
  ~ In "constructor" (map fst (style_in w)) /\
  fst (prototype.styleTo "constructor" v w) = Return tt /\
  own (style_in w1) "constructor" = Some v /\
  fst (prototype.styleTo "fill" undefined w) = Return tt /\
  fst (prototype.styleTo "fill" v w2) =
    Throw "fill style property doesn't exist".
Proof.
  cbv zeta. split; [reflexivity|]. split; [|repeat split].
  simpl. intuition discriminate.
Qed.



(** C4, on the sample form: a line of one point draws nothing and still
    takes an id. *)
Lemma draw_call_counts_once_witness :
  let w' := snd (@call Sample.externals (Line [(0, 0)]) Sample.started) in
  fst (@call Sample.externals (Line [(0, 0)]) Sample.started) = Return tt /\
  snd w' = snd Sample.started /\
  Context.groupCount (ctx_of w') = 1%Z /\
  Context.currentID (ctx_of w') = "pts_svg_0-1".
Proof.
  cbv zeta.
  pose proof (@draw_call_counts_once Sample.externals (Line [(0, 0)])
                Sample.started) as (Hcount & _ & Hid & Hshort).
  destruct (Hshort [(0, 0)]) as [Hret Hpage]; [now left | simpl; lia |].
  split; [exact Hret|]. split; [exact Hpage|].
  split; [exact Hcount | exact Hid].
Defined.

(** C8, as stated, fails: a line of two points drawn in one frame leaves a
    line element under its id; the next frame draws three points under the
    same id, and [SVGForm.line] returns that element, still a line element,
    with the points set on it. *)
Lemma line_reuses_line_element :
  let frame1 :=
    snd (@prototype.line Sample.externals [(0, 0); (1, 1)]
           (snd (prototype.updateScope "g" (Some 7%nat) Sample.started))) in
  let frame2 :=
    snd (prototype.nextID
           (snd (prototype.updateScope "g" (Some 7%nat) frame1))) in
  let pts := [(0, 0); (1, 1); (2, 2)] in
  let r := @SVGForm.line Sample.externals (ctx_of frame2) pts (snd frame2) in
  (2 < List.length pts)%nat /\
  fst r = Return (Some "g-2") /\
  exists e,
    document (snd r) !! "g-2" = Some e /\
    tagName e = "line" /\ tagName e <> "polyline" /\
    attributes e !! "points" = Some "0,0 1,1 2,2 ".
Proof.
  cbv zeta. split; [simpl; lia|]. split; [vm_compute; reflexivity|].
  vm_compute. eexists. split; [reflexivity|]. split; [reflexivity|].
  split; [discriminate | reflexivity].
Qed.

(** C8, amended, on the sample form: two points on a fresh id. *)
Lemma line_dispatch_witness :
  let w := snd (prototype.nextID Sample.started) in
  exists pg' e,
    @line Sample.externals (ctx_of w) [(0, 0); (1, 1)] (snd w)
      = (Return (Some "pts_svg_0-1"), pg') /\
    document pg' !! "pts_svg_0-1" = Some e /\
    tagName e = "line" /\
    attributes e !! "x1" = Some "0" /\ attributes e !! "y1" = Some "0" /\
    attributes e !! "x2" = Some "1" /\ attributes e !! "y2" = Some "1".
Proof.
  cbv zeta.
  pose proof (@line_dispatch Sample.externals
                (ctx_of (snd (prototype.nextID Sample.started)))
                [(0, 0); (1, 1)]
                (snd (snd (prototype.nextID Sample.started))))
    as (_ & Hpair & _ & _).
  destruct (Hpair (0, 0) (1, 1) (snd (snd (prototype.nextID Sample.started)))
              7%nat "pts_svg_0-1")
    as (pg' & e & Hrun & He & Htag & Hx1 & Hy1 & Hx2 & Hy2 & _);
    try reflexivity.
  exists pg', e. repeat split; assumption.
Defined.

(** C10, on the sample form: [log] returns, the overlay style stays, and
    the square drawn next carries it. *)
Lemma log_leaves_overlay_style_witness :
  let w' := snd (@prototype.log Sample.externals "hi" Sample.started) in
  let w'' := snd (@call Sample.externals (Square (5, 5) 2) w') in
  fst (@prototype.log Sample.externals "hi" Sample.started) = Return tt /\
  (get (style_in w') "filled" = boolean true /\
   get (style_in w') "fill" = str "#000" /\
   get (style_in w') "stroked" = boolean true /\
   get (style_in w') "stroke" = str "#fff" /\
   get (style_in w') "stroke-width" = number 0.5) /\
  exists e,
    document (snd w'') !! "pts_svg_0-2" = Some e /\
    attributes e !! "style" =
      Some ("fill: #000;stroke: #fff;stroke-width: 0.5;"
            +:+ "stroke-linejoin: bevel;stroke-linecap: sqaure").
Proof.
  cbv zeta.
  pose proof (@log_leaves_overlay_style Sample.externals "hi" Sample.started)
    as (Hvalues & Hreturns & _ & Hnext).
  assert (Hret : fst (@prototype.log Sample.externals "hi" Sample.started)
                 = Return tt)
    by (apply Hreturns; try reflexivity; discriminate).
  split; [exact Hret|]. split; [exact (Hvalues Hret)|].
  destruct (Hnext (Square (5, 5) 2) 7%nat) as (_ & e & He & Hstyle);
    try reflexivity.
  exists e. split; [exact He | exact Hstyle].
Defined.

End Runs.

(** * Further properties *)

(** ** Typography: truncation *)

Section TruncateFacts.
Import Num Typography.

Lemma div_zero (a b : Q) :
  b == 0 ->
  div a b = match a ?= 0 with Gt => PInf | Lt => NInf | Eq => NaN end.
Proof. intros Hb. unfold div. now rewrite (Qeq_eq_bool _ _ Hb). Qed.

(** X2: what [truncate] can return.  Either the text itself with its
    length, or the first [t] characters of the text followed by the tail,
    with [t] as the second component and [t] below the length of the
    text. *)
Theorem truncate_result_shape (fn : string -> Q) (str : string) (width : Q)
    (tail : string) :
  truncate fn str width tail = (str, Fin (length str)) \/
  exists (t : nat) (q : Q),
    (t < String.length str)%nat /\ q == of_nat t /\
    truncate fn str width tail = (String.substring 0 t str +:+ tail, Fin q).
Proof.
  destruct (lt (trimmed fn str width) (Fin (length str))) eqn:Hlt.
  - right.
    destruct (truncate_trimmed_result fn str width tail Hlt)
      as (t & q & Ht & Hq & Hres & _).
    exists (Z.to_nat t), q. split; [lia|]. split; [|exact Hres].
    rewrite Hq. unfold of_nat. now rewrite Z2Nat.id by lia.
  - left. unfold truncate. now rewrite Hlt.
Qed.

End TruncateFacts.

Section TruncateOrder.
Import Num Typography.

(** The trimmed length for a positive measure. *)
Lemma trimmed_positive (fn : string -> Q) (str : string) (width : Q) :
  0 < fn str ->
  trimmed fn str width =
  Fin (inject_Z (Qfloor (length str * Qmin 1 (width / fn str)))).
Proof. intros Hpos. unfold trimmed. now rewrite div_positive. Qed.

Lemma trimmed_floor_mono (fn : string -> Q) (str : string) (w1 w2 : Q) :
  0 < fn str -> w1 <= w2 ->
  (Qfloor (length str * Qmin 1 (w1 / fn str))
   <= Qfloor (length str * Qmin 1 (w2 / fn str)))%Z.
Proof.
  intros Hpos Hw. apply Qfloor_resp_le.
  rewrite (Qmult_comm (length str) (Qmin 1 (w1 / fn str))).
  rewrite (Qmult_comm (length str) (Qmin 1 (w2 / fn str))).
  apply Qmult_le_compat_r; [|apply length_nonneg].
  apply Q.min_le_compat_l. unfold Qdiv.
  apply Qmult_le_compat_r; [exact Hw|].
  apply Qlt_le_weak, Qinv_lt_0_compat, Hpos.
Qed.

(** The second component once the text is trimmed to [z] characters. *)
Lemma kept_after_tail (z : Z) (tail : string) :
  Qmax 0 (inject_Z z - length tail)
  == inject_Z (Z.max 0 (z - Z.of_nat (String.length tail))).
Proof.
  set (tl := Z.of_nat (String.length tail)).
  assert (Hd : inject_Z z - length tail == inject_Z (z - tl)).
  { unfold length, of_nat. fold tl. unfold Z.sub.
    rewrite inject_Z_plus, inject_Z_opp. reflexivity. }
  destruct (Z_le_gt_dec 0 (z - tl)) as [H|H].
  - rewrite Z.max_r by assumption. rewrite Q.max_r; [exact Hd|].
    rewrite Hd. change 0 with (inject_Z 0). now rewrite <- Zle_Qle.
  - rewrite Z.max_l by lia. rewrite Q.max_l; [reflexivity|].
    rewrite Hd. change 0 with (inject_Z 0). rewrite <- Zle_Qle. lia.
Qed.

Lemma lt_floor_length (z : Z) (str : string) :
  lt (Fin (inject_Z z)) (Fin (length str)) = true <->
  (z < Z.of_nat (String.length str))%Z.
Proof.
  simpl. rewrite negb_true_iff. unfold length, of_nat. split.
  - intros H. destruct (Z_lt_le_dec z (Z.of_nat (String.length str)));
      [assumption|].
    exfalso. rewrite Zle_Qle in l. apply Qle_bool_iff in l. congruence.
  - intros H. destruct (Qle_bool _ _) eqn:Hb; [|reflexivity].
    apply Qle_bool_iff in Hb. rewrite <- Zle_Qle in Hb. lia.
Qed.

(** The second component of [truncate] for a positive measure, as an
    integer. *)
Lemma truncate_kept (fn : string -> Q) (str : string) (width : Q)
    (tail : string) :
  0 < fn str ->
  exists q,
    snd (truncate fn str width tail) = Fin q /\
    q == inject_Z
           (let z := Qfloor (length str * Qmin 1 (width / fn str)) in
            if (z <? Z.of_nat (String.length str))%Z
            then Z.max 0 (z - Z.of_nat (String.length tail))
            else Z.of_nat (String.length str)).
Proof.
  intros Hpos. unfold truncate. rewrite trimmed_positive by assumption.
  cbv zeta.
  set (z := Qfloor (length str * Qmin 1 (width / fn str))).
  destruct (lt (Fin (inject_Z z)) (Fin (length str))) eqn:Hlt.
  - apply lt_floor_length in Hlt. apply Z.ltb_lt in Hlt. rewrite Hlt.
    eexists. split; [reflexivity|]. apply kept_after_tail.
  - assert (Hge : (z <? Z.of_nat (String.length str))%Z = false).
    { apply Z.ltb_ge. destruct (Z_lt_le_dec z (Z.of_nat (String.length str)));
        [|assumption].
      apply lt_floor_length in l. congruence. }
    rewrite Hge. eexists. split; reflexivity.
Qed.

(** X3: a wider width never keeps fewer characters.  For a positive
    measure, the second component of [truncate] grows with the width. *)
Theorem truncate_monotone (fn : string -> Q) (str : string) (w1 w2 : Q)
    (tail : string) :
  0 < fn str -> w1 <= w2 ->
  le (snd (truncate fn str w1 tail)) (snd (truncate fn str w2 tail)) = true.
Proof.
  intros Hpos Hw.
  destruct (truncate_kept fn str w1 tail Hpos) as (q1 & -> & Hq1).
  destruct (truncate_kept fn str w2 tail Hpos) as (q2 & -> & Hq2).
  simpl. apply Qle_bool_iff. rewrite Hq1, Hq2. rewrite <- Zle_Qle.
  pose proof (trimmed_floor_mono fn str w1 w2 Hpos Hw) as Hm.
  cbv zeta.
  destruct (Z.ltb_spec (Qfloor (length str * Qmin 1 (w1 / fn str)))
              (Z.of_nat (String.length str)));
  destruct (Z.ltb_spec (Qfloor (length str * Qmin 1 (w2 / fn str)))
              (Z.of_nat (String.length str))); lia.
Qed.

Lemma truncate_monotone_witness :
  le (snd (truncate length "abcdef" 2 "."))
     (snd (truncate length "abcdef" 4 ".")) = true.
Proof.
  apply (truncate_monotone length "abcdef" 2 4 ".");
    [reflexivity | discriminate].
Defined.

End TruncateOrder.

(** ** Typography: font scaling *)

Section ScalerFacts.
Import Num Typography.


Lemma compare_zero (p : Q) : p == 0 -> (p ?= 0) = Eq.
Proof. intros H. now apply Qeq_alt. Qed.

(** X6: a flat initial box.  When the initial box has extent 0, the scaler
    returns [NaN] for every box. *)
Theorem fontSizeToBox_degenerate (box b : (Q * Q) * (Q * Q)) (ratio : Q)
    (byHeight : bool) :
  extent_coord byHeight (snd box) - extent_coord byHeight (fst box) == 0 ->
  fontSizeToBox box ratio byHeight b = NaN.
Proof.
  intros Hh. unfold fontSizeToBox. rewrite (div_zero _ _ Hh).
  assert (Hf : (ratio * (extent_coord byHeight (snd box)
                         - extent_coord byHeight (fst box)) ?= 0) = Eq).
  { apply compare_zero. rewrite Hh. apply Qmult_0_r. }
  destruct (_ - _ ?= 0); cbn [mul]; try reflexivity; now rewrite Hf.
Qed.

Lemma fontSizeToBox_degenerate_witness :
  fontSizeToBox ((0, 5), (100, 5)) 2 true ((0, 0), (100, 30)) = NaN.
Proof.
  apply (fontSizeToBox_degenerate ((0, 5), (100, 5)) ((0, 0), (100, 30))
           2 true).
  reflexivity.
Defined.



End ScalerFacts.

(** ** SVGSpace: finding or creating an element *)

Section ElementFacts.
Import JS Dom Text SVGForm.

(** X9: [svgElement] finds before it creates.  With a valid parent it
    returns the id; an element already under the id is left as it is,
    whatever tag and parent the call names, so a second call changes
    nothing; a new element has the tag, the parent and the id asked for;
    and no other element is touched.  With an invalid parent it throws and
    the page stays as it was. *)
Theorem svgElement_finds_or_creates (name id : string) (pg : page) :
  SVGSpace.svgElement None name id pg =
    (Throw "parent is not a valid DOM element", pg) /\
  forall g,
    let r := SVGSpace.svgElement (Some g) name id pg in
    fst r = Return id /\
    (forall e, document pg !! id = Some e -> snd r = pg) /\
    (document pg !! id = None ->
     document (snd r) !! id = Some (mkElement name g {[ "id" := id ]} "")) /\
    (forall id', id' <> id -> document (snd r) !! id' = document pg !! id') /\
    (forall name' g',
       SVGSpace.svgElement (Some g') name' id (snd r) = (Return id, snd r)).
Proof.
  split; [reflexivity|]. intros g. cbv zeta. rewrite svgElement_Some.
  cbn [fst snd]. split; [reflexivity|]. split; [|split; [|split]].
  - intros e He. now rewrite He.
  - intros Hn. rewrite Hn. apply lookup_insert_eq.
  - intros id' Hne. now apply found_or_created_others.
  - intros name' g'. rewrite svgElement_Some.
    pose proof (found_or_created g name id pg) as Hf.
    destruct (document pg !! id) eqn:Hd.
    + now rewrite Hd.
    + now rewrite Hf.
Qed.

End ElementFacts.

(** ** SVGForm: element ids *)

Section IdFacts.
Import JS Dom Text SVGForm.

Lemma to_int_not_nil (z : Z) :
  Z.to_int z <> Decimal.Pos Decimal.Nil /\ Z.to_int z <> Decimal.Neg Decimal.Nil.
Proof.
  destruct z as [|p|p]; simpl; split; try discriminate;
    intros H; injection H as H; now apply DecimalPos.Unsigned.to_uint_nonnil in H.
Qed.

Lemma intToString_inj (m n : Z) : intToString m = intToString n -> m = n.
Proof.
  unfold intToString. intros H. apply DecimalZ.to_int_inj.
  destruct (to_int_not_nil m) as [Hm1 Hm2].
  destruct (to_int_not_nil n) as [Hn1 Hn2].
  pose proof (NilZero.isi _ Hm1 Hm2) as Em.
  pose proof (NilZero.isi _ Hn1 Hn2) as En.
  rewrite H in Em. congruence.
Qed.

(** The digits of a number hold no hyphen. *)
Lemma digits_no_hyphen (u : Decimal.uint) (a b : string) :
  NilEmpty.string_of_uint u <> a +:+ "-" +:+ b.
Proof.
  revert a. induction u; intros a; simpl;
    destruct a as [|c a]; simpl; try discriminate;
    intros H; injection H as _ H; now apply IHu in H.
Qed.

Lemma intToString_no_hyphen (n : Z) (a b : string) :
  (0 <= n)%Z -> intToString n <> a +:+ "-" +:+ b.
Proof.
  intros Hn. unfold intToString. destruct n as [|p|p]; try lia.
  - simpl. destruct a as [|c [|c' a]]; simpl; discriminate.
  - simpl. unfold NilZero.string_of_uint.
    destruct (Pos.to_uint p) eqn:Ep;
      try (rewrite <- Ep; apply digits_no_hyphen).
    destruct a as [|c [|c' a]]; simpl; discriminate.
Qed.

(** Where the last hyphen stands decides both parts. *)
Lemma hyphen_split (g1 g2 s1 s2 : string) :
  (forall a b, s1 <> a +:+ "-" +:+ b) ->
  (forall a b, s2 <> a +:+ "-" +:+ b) ->
  g1 +:+ "-" +:+ s1 = g2 +:+ "-" +:+ s2 -> g1 = g2 /\ s1 = s2.
Proof.
  intros H1 H2. revert g2.
  induction g1 as [|c g1 IH]; intros [|c' g2]; simpl; intros H.
  - injection H as H. auto.
  - injection H as _ H. now apply H1 in H.
  - injection H as _ H. symmetry in H. now apply H2 in H.
  - injection H as -> H. destruct (IH _ H) as [-> ->]. auto.
Qed.

(** X10: ids do not collide.  [nextID] returns the same id from two
    contexts whose counters are not negative only when both the group ids
    and the counters agree. *)
Theorem nextID_injective (w1 w2 : world) :
  (0 <= Context.groupCount (ctx_of w1))%Z ->
  (0 <= Context.groupCount (ctx_of w2))%Z ->
  fst (prototype.nextID w1) = fst (prototype.nextID w2) ->
  Context.groupID (ctx_of w1) = Context.groupID (ctx_of w2) /\
  Context.groupCount (ctx_of w1) = Context.groupCount (ctx_of w2).
Proof.
  intros H1 H2 Heq. destruct w1 as [f1 pg1], w2 as [f2 pg2].
  unfold ctx_of in *. cbn [fst] in *.
  change (fst (prototype.nextID (f1, pg1)))
    with (Return (A := string)
            (Context.groupID (_ctx f1) +:+ "-" +:+
             intToString (Context.groupCount (_ctx f1) + 1))) in Heq.
  change (fst (prototype.nextID (f2, pg2)))
    with (Return (A := string)
            (Context.groupID (_ctx f2) +:+ "-" +:+
             intToString (Context.groupCount (_ctx f2) + 1))) in Heq.
  injection Heq as Heq.
  apply hyphen_split in Heq.
  - destruct Heq as [Hg Hn]. apply intToString_inj in Hn. split; [exact Hg|lia].
  - intros a b. apply intToString_no_hyphen. lia.
  - intros a b. apply intToString_no_hyphen. lia.
Qed.

Lemma nextID_injective_witness :
  Context.groupID (ctx_of Sample.started)
    = Context.groupID (ctx_of Sample.started) /\
  Context.groupCount (ctx_of Sample.started)
    = Context.groupCount (ctx_of Sample.started).
Proof.
  apply (nextID_injective Sample.started Sample.started);
    [discriminate | discriminate | reflexivity].
Defined.

(** X11: ids made up for a context without one are fresh.  With an empty
    [currentID], [getID] returns "p-" and the static counter, which it then
    advances by one; so two calls in a row, or from pages whose counters
    differ, return different ids. *)
Theorem getID_fallback_fresh (ctx : Context.DrawContext) (pg pg' : page) :
  Context.currentID ctx = "" ->
  getID ctx pg = (Return ("p-" +:+ intToString (domID pg)),
                  set_domID (domID pg + 1) pg) /\
  fst (getID ctx (snd (getID ctx pg))) <> fst (getID ctx pg) /\
  (domID pg <> domID pg' -> fst (getID ctx pg) <> fst (getID ctx pg')).
Proof.
  intros He. unfold getID. rewrite He. cbn [String.eqb].
  split; [reflexivity|]. cbn [bind gets modify ret fst snd domID set_domID].
  split.
  - intros H. injection H as H. apply intToString_inj in H. lia.
  - intros Hne H. injection H as H. apply intToString_inj in H. contradiction.
Qed.

Lemma getID_fallback_fresh_witness :
  let ctx := Context.set_currentID "" (ctx_of Sample.fresh) in
  getID ctx Sample.blank = (Return "p-0", set_domID 1 Sample.blank) /\
  fst (getID ctx (snd (getID ctx Sample.blank))) <> Return "p-0".
Proof.
  cbv zeta.
  destruct (getID_fallback_fresh
              (Context.set_currentID "" (ctx_of Sample.fresh))
              Sample.blank Sample.blank)
    as (Hfirst & Hnext & _); [reflexivity|].
  split; [exact Hfirst | exact Hnext].
Defined.

End IdFacts.

(** ** Footprints *)

Section FootprintFacts.
Import JS Dom Text SVGForm Footprint.
Context `{E : Externals}.

Lemma overwrites_id : overwrites (fun e => e).
Proof.
  exists ∅, None. intros [t p a x]. simpl. now rewrite (left_id_L ∅ (∪)).
Qed.

Lemma overwrites_compose (f g : Element -> Element) :
  overwrites f -> overwrites g -> overwrites (fun e => f (g e)).
Proof.
  intros (Mf & tf & Hf) (Mg & tg & Hg).
  exists (Mf ∪ Mg), (match tf with Some s => Some s | None => tg end).
  intros e. rewrite Hf, Hg. simpl. rewrite (assoc_L (∪)).
  now destruct tf, tg.
Qed.

Lemma overwrites_idemp (f : Element -> Element) (e : Element) :
  overwrites f -> f (f e) = f e.
Proof.
  intros (M & t & Hf). rewrite !Hf. simpl.
  rewrite (assoc_L (∪)), (idemp_L (∪) M). now destruct t.
Qed.

Lemma overwrites_setAttributes (data : list (string * string)) :
  overwrites (setAttributes data).
Proof.
  unfold setAttributes. induction data as [|[k v] data IH].
  - apply overwrites_id.
  - simpl.
    apply (overwrites_compose
             (fun e => fold_left (fun e kv => setAttribute (fst kv) (snd kv) e)
                         data e)
             (setAttribute k v) IH).
    exists {[ k := v ]}, None. intros e. unfold setAttribute. simpl.
    now rewrite insert_union_singleton_l.
Qed.

Lemma overwrites_textContent (txt : string) : overwrites (set_textContent txt).
Proof.
  exists ∅, (Some txt). intros e. unfold set_textContent. simpl.
  now rewrite (left_id_L ∅ (∪)).
Qed.

Lemma settled_idemp (G : option Element -> option Element) (x : option Element) :
  settled G -> G (G x) = G x.
Proof.
  intros [Hid | (new & f & Hf & HG)].
  - now rewrite !Hid.
  - rewrite !HG. simpl. now rewrite overwrites_idemp.
Qed.

Lemma settled_keeps (G : option Element -> option Element) (e : Element) :
  settled G ->
  exists e', G (Some e) = Some e' /\
             tagName e' = tagName e /\ parentNode e' = parentNode e.
Proof.
  intros [Hid | (new & f & (M & t & Hf) & HG)].
  - exists e. now rewrite Hid.
  - exists (f e). rewrite HG. simpl. rewrite Hf. simpl. auto.
Qed.

Lemma page_eq (pg pg' : page) :
  document pg = document pg' -> domID pg = domID pg' ->
  groupID_next pg = groupID_next pg' -> pg = pg'.
Proof. destruct pg, pg'. simpl. now intros -> -> ->. Qed.

Lemma partial_alter_id (G : option Element -> option Element) (i : string)
    (pg : page) :
  (forall x, G x = x) -> set_document (partial_alter G i) pg = pg.
Proof.
  intros HG. apply page_eq; try reflexivity. simpl. apply map_eq. intros j.
  destruct (decide (j = i)) as [->|Hne].
  - now rewrite lookup_partial_alter_eq, HG.
  - now rewrite lookup_partial_alter_ne.
Qed.

Lemma partial_alter_twice (G : option Element -> option Element) (i : string)
    (pg : page) :
  settled G ->
  set_document (partial_alter G i) (set_document (partial_alter G i) pg)
  = set_document (partial_alter G i) pg.
Proof.
  intros HG. apply page_eq; try reflexivity. simpl. apply map_eq. intros j.
  destruct (decide (j = i)) as [->|Hne].
  - rewrite !lookup_partial_alter_eq. now apply settled_idemp.
  - now rewrite !lookup_partial_alter_ne.
Qed.

Lemma apart_partial_alter (G : option Element -> option Element)
    (i j : string) :
  i <> j -> apart j (set_document (partial_alter G i)).
Proof.
  intros Hne G' pg. apply page_eq; try reflexivity. simpl.
  apply map_eq. intros l.
  destruct (decide (l = i)) as [Hi|Hi]; destruct (decide (l = j)) as [Hj|Hj];
    try congruence; subst;
    repeat first [ rewrite lookup_partial_alter_eq
                 | rewrite lookup_partial_alter_ne by congruence ];
    reflexivity.
Qed.

(** *** Computations that overwrite one element *)

Lemma edits_ret {A} (i : string) (a : A) : edits i (ret a).
Proof.
  exists (Return a), (fun e => e). split; [apply overwrites_id|].
  intros pg. unfold ret. f_equal. apply page_eq; try reflexivity. simpl.
  apply map_eq. intros j. destruct (decide (j = i)) as [->|Hne].
  - rewrite lookup_alter_eq. now destruct (document pg !! i).
  - now rewrite lookup_alter_ne.
Qed.

Lemma edits_throw {A} (i : string) (e : string) : edits i (throw (A := A) e).
Proof.
  destruct (edits_ret i tt) as (out & f & Hf & Hm).
  exists (Throw e), f. split; [exact Hf|]. intros pg.
  specialize (Hm pg). unfold ret in Hm. unfold throw.
  injection Hm as _ Hm. now rewrite <- Hm.
Qed.

Lemma edits_alter (i : string) (f : Element -> Element) :
  overwrites f -> edits i (modify (set_document (alter f i))).
Proof. intros Hf. now exists (Return tt), f. Qed.

Lemma edits_bind {A B} (i : string) (m : M page A) (k : A -> M page B) :
  edits i m -> (forall a, edits i (k a)) -> edits i (bind m k).
Proof.
  intros (out & f & Hf & Hm) Hk. destruct out as [a|e].
  - destruct (Hk a) as (out' & f' & Hf' & Hk').
    exists out', (fun e => f' (f e)). split; [now apply overwrites_compose|].
    intros pg. unfold bind. rewrite Hm, Hk'. f_equal.
    apply page_eq; try reflexivity. simpl.
    apply (alter_alter_eq f' f).
  - exists (Throw e), f. split; [exact Hf|]. intros pg. unfold bind.
    now rewrite Hm.
Qed.

Lemma edits_setAttr (i : string) (data : list (string * string)) :
  edits i (setAttr i data).
Proof.
  unfold setAttr. apply edits_bind; [|intros; apply edits_ret].
  apply edits_alter, overwrites_setAttributes.
Qed.

Lemma edits_style (i : string) (styles : object) : edits i (style i styles).
Proof.
  unfold style. destruct styles as [|kv styles].
  - apply edits_setAttr.
  - destruct (own (kv :: styles) "hasOwnProperty").
    + apply edits_throw.
    + apply edits_setAttr.
Qed.

(** *** The element steps of a draw function *)

Lemma element_steps_settle {A} (name : string) (k : string -> M page A)
    (ctx : Context.DrawContext) :
  Context.currentID ctx <> "" ->
  (forall elem, edits elem (k elem)) ->
  settles (Context.currentID ctx)
    (id0 <- getID ctx ;;
     elem <- SVGSpace.svgElement (Context.group ctx) name id0 ;;
     k elem).
Proof.
  intros Hid Hk. set (i := Context.currentID ctx).
  destruct (Context.group ctx) as [g|] eqn:Hg.
  - destruct (Hk i) as (out & f & Hf & Hm).
    exists out,
      (fun x => Some (f (default (mkElement name g {[ "id" := i ]} "") x))).
    split; [right; eauto|]. intros pg. unfold bind at 1.
    rewrite getID_current by assumption. cbv beta iota. fold i.
    unfold bind. rewrite svgElement_Some, Hm. f_equal.
    apply page_eq; try (now destruct (document pg !! i)). 
    apply map_eq. intros j. destruct (decide (j = i)) as [->|Hne].
    + cbn [document set_document].
      rewrite lookup_alter_eq, lookup_partial_alter_eq, found_or_created.
      reflexivity.
    + cbn [document set_document].
      rewrite lookup_alter_ne, lookup_partial_alter_ne by congruence.
      now apply found_or_created_others.
  - exists (Throw "parent is not a valid DOM element"), (fun x => x).
    split; [now left|]. intros pg. unfold bind at 1.
    rewrite getID_current by assumption. cbv beta iota.
    unfold bind, SVGSpace.svgElement, throw.
    now rewrite partial_alter_id.
Qed.

Lemma settles_ret {A} (i : string) (a : A) : settles i (ret a).
Proof.
  exists (Return a), (fun x => x). split; [now left|]. intros pg.
  unfold ret. now rewrite partial_alter_id.
Qed.

Lemma settles_throw {A} (i : string) (e : string) :
  settles i (throw (A := A) e).
Proof.
  exists (Throw e), (fun x => x). split; [now left|]. intros pg.
  unfold throw. now rewrite partial_alter_id.
Qed.

Ltac steps :=
  apply element_steps_settle; [assumption|];
  intros elem;
  repeat first
    [ apply edits_setAttr
    | apply edits_style
    | apply edits_ret
    | apply edits_alter; apply overwrites_textContent
    | apply edits_bind; [|intros _] ].

Lemma circle_settles (ctx : Context.DrawContext) (pt : Form.Pt)
    (radius : option Q) :
  Context.currentID ctx <> "" ->
  settles (Context.currentID ctx) (circle ctx pt radius).
Proof. intros H. unfold circle. cbv zeta. steps. Qed.

Lemma square_settles (ctx : Context.DrawContext) (pt : Form.Pt)
    (halfsize : Q) :
  Context.currentID ctx <> "" ->
  settles (Context.currentID ctx) (square ctx pt halfsize).
Proof. intros H. unfold square. steps. Qed.

Lemma point_settles (ctx : Context.DrawContext) (pt : Form.Pt)
    (radius : option Q) (shape : option string) :
  Context.currentID ctx <> "" ->
  settles (Context.currentID ctx) (SVGForm.point ctx pt radius shape).
Proof.
  intros H. unfold SVGForm.point. cbv zeta.
  match goal with |- context [if ?b then _ else _] => destruct b end.
  - now apply circle_settles.
  - now apply square_settles.
Qed.

Lemma arc_settles (ctx : Context.DrawContext) (pt : Form.Pt)
    (radius startAngle endAngle : Q) (cc : bool) :
  Context.currentID ctx <> "" ->
  settles (Context.currentID ctx) (arc ctx pt radius startAngle endAngle cc).
Proof. intros H. unfold arc. cbv zeta. steps. Qed.

Lemma poly_settles (ctx : Context.DrawContext) (pts : list Form.Pt)
    (closePath : bool) :
  Context.currentID ctx <> "" ->
  settles (Context.currentID ctx) (_poly ctx pts closePath).
Proof.
  intros H. unfold _poly. destruct (negb (Form._checkSize pts)).
  - apply settles_ret.
  - cbv zeta. steps.
Qed.

Lemma line_settles (ctx : Context.DrawContext) (pts : list Form.Pt) :
  Context.currentID ctx <> "" ->
  settles (Context.currentID ctx) (line ctx pts).
Proof.
  intros H. unfold line. destruct (negb (Form._checkSize pts)).
  - apply settles_ret.
  - destruct (2 <? List.length pts)%nat.
    + now apply poly_settles.
    + destruct pts as [|p0 [|p1 pts]]; try apply settles_throw. steps.
Qed.

Lemma rect_settles (ctx : Context.DrawContext) (pts : list Form.Pt) :
  Context.currentID ctx <> "" ->
  settles (Context.currentID ctx) (rect ctx pts).
Proof.
  intros H. unfold rect. destruct (negb (Form._checkSize pts)).
  - apply settles_ret.
  - cbv zeta. steps.
Qed.

Lemma text_settles (ctx : Context.DrawContext) (pt : Form.Pt) (txt : string) :
  Context.currentID ctx <> "" ->
  settles (Context.currentID ctx) (text ctx pt txt).
Proof. intros H. unfold text. steps. Qed.

End FootprintFacts.

(** ** SVGForm: what a draw call does to the page *)

Section CallFootprint.
Import JS Dom Text SVGForm Footprint.
Context `{E : Externals}.

Local Abbreviation next_id f :=
  (Context.groupID (_ctx f) +:+ "-" +:+
   intToString (Context.groupCount (_ctx f) + 1)).

Lemma nextID_advanced (f : SVGForm) (p : page) :
  prototype.nextID (f, p) = (Return (next_id f), (advanced f, p)).
Proof. reflexivity. Qed.

Lemma advanced_ctx (f : SVGForm) :
  Context.groupID (_ctx (advanced f)) = Context.groupID (_ctx f) /\
  Context.groupCount (_ctx (advanced f))
    = (Context.groupCount (_ctx f) + 1)%Z /\
  Context.currentID (_ctx (advanced f)) = next_id f.
Proof. repeat split. Qed.

Lemma updateScope_scoped (group_id : string) (group : option node)
    (f : SVGForm) (p : page) :
  prototype.updateScope group_id group (f, p)
  = (Return (_ctx (scoped group_id group f)), (scoped group_id group f, p)).
Proof. reflexivity. Qed.

Lemma scoped_advanced (group_id : string) (group : option node) (f : SVGForm) :
  scoped group_id group (advanced f) = scoped group_id group f.
Proof. reflexivity. Qed.

Lemma method_settles {A} (draw_static : Context.DrawContext -> M page A)
    (f : SVGForm) :
  (forall ctx, Context.currentID ctx <> "" ->
     settles (Context.currentID ctx) (draw_static ctx)) ->
  exists out G, settled G /\
    forall p,
      (prototype.nextID ;;; ctx <- this_ctx ;;
       on_snd (draw_static ctx) ;;; ret tt) (f, p)
      = (out, (advanced f, set_document (partial_alter G (next_id f)) p)).
Proof.
  intros Hs.
  destruct (Hs (_ctx (advanced f))) as (out & G & HG & Hm).
  { apply joined_id_nonempty. }
  exists (match out with Return _ => Return tt | Throw e => Throw e end), G.
  split; [exact HG|]. intros p. unfold bind at 1.
  rewrite nextID_advanced. cbv beta iota.
  unfold bind at 1, this_ctx, gets. cbv beta iota. cbn [fst].
  unfold bind, on_snd. cbn [fst snd]. rewrite Hm.
  now destruct out.
Qed.

Lemma call_settles (d : draw) (f : SVGForm) :
  exists out G, settled G /\
    forall p,
      call d (f, p)
      = (out, (advanced f, set_document (partial_alter G (next_id f)) p)).
Proof.
  destruct d; unfold call.
  - unfold prototype.point. cbv zeta.
    apply (method_settles
             (fun ctx => SVGForm.point ctx pt (Some (default 5 radius))
                           (Some (default "square" shape)))).
    intros. now apply point_settles.
  - destruct pts as [|p0 [|p1 pts]];
      try (exists (Throw "TypeError"), (fun x => x); split; [now left|];
           intros p; unfold prototype.circle, bind at 1;
           rewrite nextID_advanced; cbv beta iota;
           unfold bind, this_ctx, gets, throw; cbv beta iota;
           now rewrite partial_alter_id).
    unfold prototype.circle.
    apply (method_settles (fun ctx => circle ctx p0 (Some (fst p1)))).
    intros. now apply circle_settles.
  - unfold prototype.arc.
    apply (method_settles
             (fun ctx => arc ctx pt radius startAngle endAngle cc)).
    intros. now apply arc_settles.
  - unfold prototype.square.
    apply (method_settles (fun ctx => square ctx pt halfsize)).
    intros. now apply square_settles.
  - unfold prototype.line.
    apply (method_settles (fun ctx => line ctx pts)).
    intros. now apply line_settles.
  - unfold prototype.polygon.
    apply (method_settles (fun ctx => polygon ctx pts)).
    intros. unfold polygon. now apply poly_settles.
  - unfold prototype.rect.
    apply (method_settles (fun ctx => rect ctx pts)).
    intros. now apply rect_settles.
  - unfold prototype.text.
    apply (method_settles (fun ctx => text ctx pt txt)).
    intros. now apply text_settles.
Qed.

(** X12: a draw call touches one element only.  Whatever it draws and
    however it ends, the call leaves the two static counters and every
    element but the one under its own id, [groupID-(groupCount+1)], as they
    were; and an element already under that id stays in the document with
    its tag and its parent: the call may only set attributes and text on
    it. *)
Theorem call_touches_its_element (d : draw) (w : world) :
  let id := Context.groupID (ctx_of w) +:+ "-" +:+
            intToString (Context.groupCount (ctx_of w) + 1) in
  let pg' := snd (snd (call d w)) in
  domID pg' = domID (snd w) /\
  groupID_next pg' = groupID_next (snd w) /\
  (forall id', id' <> id -> document pg' !! id' = document (snd w) !! id') /\
  (forall e, document (snd w) !! id = Some e ->
     exists e', document pg' !! id = Some e' /\
                tagName e' = tagName e /\ parentNode e' = parentNode e).
Proof.
  destruct w as [f p]. cbv zeta. unfold ctx_of. cbn [fst snd].
  destruct (call_settles d f) as (out & G & HG & Hc). rewrite Hc.
  cbn [fst snd set_document domID groupID_next document].
  split; [reflexivity|]. split; [reflexivity|]. split.
  - intros id' Hne. now rewrite lookup_partial_alter_ne by congruence.
  - intros e He. rewrite lookup_partial_alter_eq, He.
    now apply settled_keeps.
Qed.

(** *** A run of draw calls *)

Lemma apart_lookup (j : string) (T : page -> page) (p : page) :
  apart j T -> document (T p) !! j = document p !! j.
Proof.
  intros HT. specialize (HT (fun _ => document p !! j) p).
  assert (Hp : set_document (partial_alter (fun _ => document p !! j) j) p = p).
  { apply page_eq; try reflexivity. simpl. apply map_eq. intros l.
    destruct (decide (l = j)) as [->|Hne].
    - now rewrite lookup_partial_alter_eq.
    - now rewrite lookup_partial_alter_ne by congruence. }
  rewrite Hp in HT. rewrite HT. simpl. now rewrite lookup_partial_alter_eq.
Qed.

Lemma id_suffix_inj (g : string) (m n : Z) :
  g +:+ "-" +:+ intToString m = g +:+ "-" +:+ intToString n -> m = n.
Proof.
  induction g as [|c g IH]; simpl; intros H; injection H as H.
  - now apply intToString_inj.
  - now apply IH.
Qed.

Lemma draw_all_footprint (ds : list draw) (f : SVGForm) :
  exists out F T,
    (forall p, draw_all ds (f, p) = (out, (F, T p))) /\
    (forall p, T (T p) = T p) /\
    (forall p, domID (T p) = domID p /\
               groupID_next (T p) = groupID_next p) /\
    (forall j,
       (forall k,
          (Context.groupCount (_ctx f) < k
           <= Context.groupCount (_ctx f) + Z.of_nat (List.length ds))%Z ->
          j <> Context.groupID (_ctx f) +:+ "-" +:+ intToString k) ->
       apart j T) /\
    Context.groupID (_ctx F) = Context.groupID (_ctx f) /\
    (Context.groupCount (_ctx f) <= Context.groupCount (_ctx F)
     <= Context.groupCount (_ctx f) + Z.of_nat (List.length ds))%Z /\
    (out = Return tt ->
     Context.groupCount (_ctx F)
     = (Context.groupCount (_ctx f) + Z.of_nat (List.length ds))%Z) /\
    (Context.currentID (_ctx f)
     = Context.groupID (_ctx f) +:+ "-" +:+
       intToString (Context.groupCount (_ctx f)) ->
     Context.currentID (_ctx F)
     = Context.groupID (_ctx F) +:+ "-" +:+
       intToString (Context.groupCount (_ctx F))) /\
    (forall group_id group,
       scoped group_id group F = scoped group_id group f).
Proof.
  revert f. induction ds as [|d ds IH]; intros f.
  - exists (Return tt), f, (fun p => p). cbn [List.length Z.of_nat].
    repeat split; auto; try lia. 
  - destruct (call_settles d f) as (out & G & HG & Hc).
    destruct (advanced_ctx f) as (Hg & Hn & Hi).
    destruct out as [[]|e].
    + destruct (IH (advanced f))
        as (out' & F & T & Hrun & Hidem & Hcnt & Hapart & HgF & HnF & Hret
            & Hcur & Hsc).
      rewrite Hg, Hn in *.
      exists out', F,
        (fun p => T (set_document (partial_alter G (next_id f)) p)).
      split; [|split; [|split; [|split; [|split; [|split;
        [|split; [|split]]]]]]].
      * intros p. cbn [draw_all]. unfold bind. rewrite Hc. apply Hrun.
      * intros p.
        assert (Ha : apart (next_id f) T).
        { apply Hapart. intros k Hk Heq. apply id_suffix_inj in Heq. lia. }
        rewrite Ha, Hidem, <- Ha. now rewrite partial_alter_twice.
      * intros p. destruct (Hcnt (set_document (partial_alter G (next_id f)) p))
          as [-> ->]. now split.
      * intros j Hj G' p.
        assert (Ha : apart j T).
        { apply Hapart. intros k Hk. apply Hj.
          cbn [List.length]. lia. }
        assert (Hne : next_id f <> j).
        { intros <-. apply (Hj (Context.groupCount (_ctx f) + 1)%Z);
            [cbn [List.length]; lia | reflexivity]. }
        rewrite (apart_partial_alter G (next_id f) j Hne G' p).
        apply Ha.
      * exact HgF.
      * cbn [List.length]. lia.
      * intros Ho. rewrite (Hret Ho). cbn [List.length]. lia.
      * intros _. apply Hcur. reflexivity.
      * intros group_id group. now rewrite Hsc, scoped_advanced.
    + exists (Throw e), (advanced f),
        (set_document (partial_alter G (next_id f))).
      split; [|split; [|split; [|split; [|split; [|split;
        [|split; [|split]]]]]]].
      * intros p. cbn [draw_all]. unfold bind. now rewrite Hc.
      * intros p. now apply partial_alter_twice.
      * intros p. now split.
      * intros j Hj. apply apart_partial_alter. intros Heq.
        apply (Hj (Context.groupCount (_ctx f) + 1)%Z);
          [cbn [List.length]; lia | now symmetry].
      * exact Hg.
      * rewrite Hn. cbn [List.length]. lia.
      * discriminate.
      * intros _. reflexivity.
      * intros group_id group. apply scoped_advanced.
Qed.

(** X13: the ids of a scope.  After [updateScope(group_id, group)] the
    k-th draw call writes the element [group_id-(k+1)]: a run of draw calls
    that returns leaves the counter at one more than their number, with
    [currentID] the id of the last; no element outside [group_id-2] ...
    [group_id-(n+1)] changes, so the id [group_id-1], which [updateScope]
    itself takes, is never drawn to; and the static counters stay. *)
Theorem scope_numbers_draws (group_id : string) (group : option node)
    (ds : list draw) (w : world) :
  let r := (prototype.updateScope group_id group ;;; draw_all ds) w in
  let n := Z.of_nat (List.length ds) in
  (fst r = Return tt ->
   Context.groupCount (ctx_of (snd r)) = (1 + n)%Z /\
   Context.currentID (ctx_of (snd r))
   = group_id +:+ "-" +:+ intToString (1 + n)) /\
  Context.groupID (ctx_of (snd r)) = group_id /\
  (1 <= Context.groupCount (ctx_of (snd r)) <= 1 + n)%Z /\
  document (snd (snd r)) !! (group_id +:+ "-1")
  = document (snd w) !! (group_id +:+ "-1") /\
  (forall j,
     (forall k, (2 <= k <= 1 + n)%Z ->
        j <> group_id +:+ "-" +:+ intToString k) ->
     document (snd (snd r)) !! j = document (snd w) !! j) /\
  domID (snd (snd r)) = domID (snd w) /\
  groupID_next (snd (snd r)) = groupID_next (snd w).
Proof.
  destruct w as [f p]. cbv zeta. unfold bind.
  rewrite updateScope_scoped. cbv beta iota.
  destruct (draw_all_footprint ds (scoped group_id group f))
    as (out & F & T & Hrun & Hidem & Hcnt & Hapart & HgF & HnF & Hret
        & Hcur & Hsc).
  rewrite Hrun. unfold ctx_of. cbn [fst snd].
  change (Context.groupID (_ctx (scoped group_id group f))) with group_id in *.
  change (Context.groupCount (_ctx (scoped group_id group f))) with 1%Z in *.
  assert (Hout : forall j,
            (forall k, (2 <= k <= 1 + Z.of_nat (List.length ds))%Z ->
               j <> group_id +:+ "-" +:+ intToString k) ->
            document (T p) !! j = document p !! j).
  { intros j Hj. apply apart_lookup, Hapart. intros k Hk. apply Hj. lia. }
  split; [|split; [|split; [|split; [|split; [|split]]]]].
  - intros Ho. rewrite Hcur by reflexivity. rewrite HgF, (Hret Ho).
    split; reflexivity.
  - exact HgF.
  - exact HnF.
  - apply Hout. intros k Hk Heq.
    apply (id_suffix_inj group_id 1 k) in Heq. lia.
  - exact Hout.
  - apply Hcnt.
  - apply Hcnt.
Qed.

(** X14: drawing the same frame again changes nothing.  A frame sets the
    scope and makes its draw calls; run a second time, on the state the
    first run left, it ends the same way and leaves the instance and the
    page exactly as the first run did: every call finds the element its
    first run made and writes the same attributes to it, also when a call
    of the frame throws. *)
Theorem redraw_changes_nothing (group_id : string) (group : option node)
    (ds : list draw) (w : world) :
  let r := (prototype.updateScope group_id group ;;; draw_all ds) w in
  (prototype.updateScope group_id group ;;; draw_all ds) (snd r) = r.
Proof.
  destruct w as [f p]. cbv zeta.
  destruct (draw_all_footprint ds (scoped group_id group f))
    as (out & F & T & Hrun & Hidem & Hcnt & Hapart & HgF & HnF & Hret
        & Hcur & Hsc).
  assert (Hr : forall f' p',
            scoped group_id group f' = scoped group_id group f ->
            (prototype.updateScope group_id group ;;; draw_all ds) (f', p')
            = (out, (F, T p'))).
  { intros f' p' Hf. unfold bind. rewrite updateScope_scoped. cbv beta iota.
    rewrite Hf. apply Hrun. }
  rewrite (Hr f p) by reflexivity. cbn [snd].
  rewrite Hr; [now rewrite Hidem|].
  rewrite Hsc. reflexivity.
Qed.

End CallFootprint.

(** ** SVGForm: start, scopes and the parent *)

Section ScopeFacts.
Import JS Dom Text SVGForm Footprint.
Context `{E : Externals}.

(** X15: forms started on one page draw under different names.  [start]
    hands the form the element of its space as group, marks it ready and
    names its group after the static counter, which it advances; so a form
    started later has another group id, no id the two forms make with
    counters that are not negative is the same, and the document is not
    touched. *)
Theorem start_names_groups_apart (f1 f2 : SVGForm) (pg : page) :
  let w1 := snd (start (f1, pg)) in
  let w2 := snd (start (f2, snd w1)) in
  fst (start (f1, pg)) = Return tt /\
  _ready (fst w1) = true /\
  Context.group (ctx_of w1) = Some (SVGSpace.element (_space f1)) /\
  Context.groupID (ctx_of w1) = "pts_svg_" +:+ intToString (groupID_next pg) /\
  groupID_next (snd w1) = (groupID_next pg + 1)%Z /\
  document (snd w1) = document pg /\
  Context.groupID (ctx_of w2) <> Context.groupID (ctx_of w1) /\
  (forall m n, (0 <= m)%Z -> (0 <= n)%Z ->
     Context.groupID (ctx_of w1) +:+ "-" +:+ intToString m
     <> Context.groupID (ctx_of w2) +:+ "-" +:+ intToString n).
Proof.
  cbv zeta.
  assert (Hne : "pts_svg_" +:+ intToString (groupID_next pg + 1)
                <> "pts_svg_" +:+ intToString (groupID_next pg)).
  { intros H. simpl in H. injection H as H. apply intToString_inj in H. lia. }
  repeat (split; [reflexivity|]). split; [exact Hne|].
  intros m n Hm Hn H. apply hyphen_split in H.
  - destruct H as [H _]. symmetry in H. now apply Hne in H.
  - intros a b. now apply intToString_no_hyphen.
  - intros a b. now apply intToString_no_hyphen.
Qed.

(** X16: the scope of an item.  [scope] throws, and changes nothing, for
    an item that is missing or has no [animateID]; for an item with one it
    returns the context with the group id ["item-" + animateID], the
    element of the space as group, the counter at 1 and the current id
    ["item-" + animateID + "-1"], and leaves the style map and the page
    alone.  Items with different [animateID]s get different scopes. *)
Theorem scope_of_item (n : Z) (w : world) :
  prototype.scope None w
    = (Throw "item not defined or not yet added to Space", w) /\
  prototype.scope (Some (mkItem None)) w
    = (Throw "item not defined or not yet added to Space", w) /\
  (let r := prototype.scope (Some (mkItem (Some n))) w in
   fst r = Return (ctx_of (snd r)) /\
   Context.groupID (ctx_of (snd r)) = "item-" +:+ intToString n /\
   Context.group (ctx_of (snd r))
     = Some (SVGSpace.element (_space (fst w))) /\
   Context.groupCount (ctx_of (snd r)) = 1%Z /\
   Context.currentID (ctx_of (snd r)) = "item-" +:+ intToString n +:+ "-1" /\
   style_in (snd r) = style_in w /\
   snd (snd r) = snd w) /\
  (forall m, scopeID (mkItem (Some m)) = scopeID (mkItem (Some n)) -> m = n).
Proof.
  split; [reflexivity|]. split; [reflexivity|]. split.
  - cbv zeta. destruct w as [f p]. unfold ctx_of, style_in, ctx_of.
    cbn [prototype.scope animateID]. unfold bind, gets. cbv beta iota.
    rewrite updateScope_scoped. cbn [fst snd].
    split; [reflexivity|]. split; [reflexivity|]. split; [reflexivity|].
    repeat (split; [reflexivity|]). reflexivity.
  - intros m H. unfold scopeID in H. cbn [animateID] in H. simpl in H.
    injection H as H. now apply intToString_inj.
Qed.

(** *** Drawing without a group *)

Lemma steps_without_group {A} (name : string) (k : string -> M page A)
    (ctx : Context.DrawContext) (pg : page) :
  Context.group ctx = None ->
  Context.currentID ctx <> "" ->
  (id0 <- getID ctx ;;
   elem <- SVGSpace.svgElement (Context.group ctx) name id0 ;;
   k elem) pg = (Throw "parent is not a valid DOM element", pg).
Proof.
  intros Hg Hid. unfold bind at 1. rewrite getID_current by assumption.
  cbv beta iota. now rewrite Hg.
Qed.

Lemma method_throws {A} (draw_static : Context.DrawContext -> M page A)
    (f : SVGForm) (p : page) (e : string) :
  draw_static (_ctx (advanced f)) p = (Throw e, p) ->
  (prototype.nextID ;;; ctx <- this_ctx ;;
   on_snd (draw_static ctx) ;;; ret tt) (f, p)
  = (Throw e, (advanced f, p)).
Proof.
  intros H. unfold bind at 1. rewrite nextID_advanced. cbv beta iota.
  unfold bind at 1, this_ctx, gets. cbv beta iota. cbn [fst].
  unfold bind, on_snd. cbn [fst snd]. now rewrite H.
Qed.

(** X17: no drawing without a group.  A form whose group is missing, as
    it is before the space has started and after an [updateScope] that
    names no group, cannot draw: a call that has its points throws "parent
    is not a valid DOM element" and leaves the page as it was, having
    advanced the counter all the same. *)
Theorem draw_needs_group (d : draw) (w : world) :
  draws d = true ->
  Context.group (ctx_of w) = None ->
  call d w = (Throw "parent is not a valid DOM element",
              (advanced (fst w), snd w)) /\
  Context.groupCount (_ctx (advanced (fst w)))
    = (Context.groupCount (ctx_of w) + 1)%Z.
Proof.
  destruct w as [f p]. unfold ctx_of. cbn [fst snd]. intros Hd Hg.
  split; [|reflexivity].
  assert (Hg1 : Context.group (_ctx (advanced f)) = None) by exact Hg.
  assert (Hid : Context.currentID (_ctx (advanced f)) <> "")
    by apply joined_id_nonempty.
  destruct d; cbn [draws] in Hd; unfold call.
  - unfold prototype.point. cbv zeta.
    apply (method_throws
             (fun ctx => SVGForm.point ctx pt (Some (default 5 radius))
                           (Some (default "square" shape)))).
    unfold SVGForm.point. cbv zeta.
    match goal with |- context [if ?b then _ else _] => destruct b end.
    + unfold circle. cbv zeta. now apply steps_without_group.
    + unfold square. now apply steps_without_group.
  - destruct pts as [|p0 [|p1 pts]]; try (simpl in Hd; discriminate).
    unfold prototype.circle.
    apply (method_throws (fun ctx => circle ctx p0 (Some (fst p1)))).
    unfold circle. cbv zeta. now apply steps_without_group.
  - unfold prototype.arc.
    apply (method_throws
             (fun ctx => arc ctx pt radius startAngle endAngle cc)).
    unfold arc. now apply steps_without_group.
  - unfold prototype.square.
    apply (method_throws (fun ctx => square ctx pt halfsize)).
    unfold square. now apply steps_without_group.
  - apply Nat.leb_le in Hd. unfold prototype.line.
    apply (method_throws (fun ctx => line ctx pts)). unfold line.
    rewrite (checkSize_true pts Hd). cbn [negb].
    destruct (2 <? List.length pts)%nat.
    + unfold _poly. rewrite (checkSize_true pts Hd). cbn [negb].
      now apply steps_without_group.
    + destruct pts as [|p0 [|p1 pts]]; simpl in Hd; try lia.
      now apply steps_without_group.
  - apply Nat.leb_le in Hd. unfold prototype.polygon.
    apply (method_throws (fun ctx => polygon ctx pts)).
    unfold polygon, _poly. rewrite (checkSize_true pts Hd). cbn [negb].
    now apply steps_without_group.
  - apply Nat.leb_le in Hd. unfold prototype.rect.
    apply (method_throws (fun ctx => rect ctx pts)). unfold rect.
    rewrite (checkSize_true pts Hd). cbn [negb].
    now apply steps_without_group.
  - unfold prototype.text.
    apply (method_throws (fun ctx => text ctx pt txt)).
    unfold text. now apply steps_without_group.
Qed.

End ScopeFacts.

Section ScopeRuns.
Import JS Dom Text SVGForm Footprint.

Lemma draw_needs_group_witness :
  @call Sample.externals (Circle [(5, 5); (3, 0)]) Sample.fresh
  = (Throw "parent is not a valid DOM element",
     (advanced (fst Sample.fresh), Sample.blank)) /\
  Context.groupCount (_ctx (advanced (fst Sample.fresh))) = 1%Z.
Proof.
  apply (@draw_needs_group Sample.externals (Circle [(5, 5); (3, 0)])
           Sample.fresh); reflexivity.
Defined.

End ScopeRuns.

(** ** SVGForm: the font *)

Section FontFacts.
Import JS Dom Text SVGForm Footprint.
Context `{E : Externals}.

Lemma method_run {A} (draw_static : Context.DrawContext -> M page A)
    (f : SVGForm) (p : page) :
  (prototype.nextID ;;; ctx <- this_ctx ;;
   on_snd (draw_static ctx) ;;; ret tt) (f, p)
  = (match fst (draw_static (_ctx (advanced f)) p) with
     | Return _ => Return tt
     | Throw e => Throw e
     end,
     (advanced f, snd (draw_static (_ctx (advanced f)) p))).
Proof.
  unfold bind at 1. rewrite nextID_advanced. cbv beta iota.
  unfold bind at 1, this_ctx, gets. cbv beta iota. cbn [fst].
  unfold bind, on_snd. cbn [fst snd].
  now destruct (draw_static (_ctx (advanced f)) p) as [[a|e] p'].
Qed.

(** The font of the instance and of its context play no part in a draw
    call. *)
Lemma call_ignores_font (d : draw) (c : Context.DrawContext) (s : string)
    (fo fo' : Form.Font) (rd : bool) (sp : SVGSpace.SVGSpace) (p : page) :
  fst (call d (mkForm (Context.set_font s c) fo' rd sp, p))
    = fst (call d (mkForm c fo rd sp, p)) /\
  snd (snd (call d (mkForm (Context.set_font s c) fo' rd sp, p)))
    = snd (snd (call d (mkForm c fo rd sp, p))).
Proof.
  destruct d; unfold call;
    try (destruct pts as [|p0 [|p1 pts]]; [split; reflexivity ..|]);
    match goal with
    | |- context [prototype.point] => unfold prototype.point; cbv zeta
    | |- context [prototype.circle] => unfold prototype.circle
    | |- context [prototype.arc] => unfold prototype.arc
    | |- context [prototype.square] => unfold prototype.square
    | |- context [prototype.line] => unfold prototype.line
    | |- context [prototype.polygon] => unfold prototype.polygon
    | |- context [prototype.rect] => unfold prototype.rect
    | |- context [prototype.text] => unfold prototype.text
    end.
  all: split.
  all: try (rewrite !method_run; reflexivity).
  all: idtac.
Qed.

Lemma set_font_same (c : Context.DrawContext) :
  Context.set_font (Context.font c) c = c.
Proof. now destruct c. Qed.

Lemma font_run (sizeOrFont : Q + Form.Font) (weight style : option string)
    (lineHeight : option Q) (family : option string) (f : SVGForm) (p : page) :
  exists s fo,
    prototype.font sizeOrFont weight style lineHeight family (f, p)
    = (Return tt,
       (mkForm (Context.set_font s (_ctx f)) fo (_ready f) (_space f), p)).
Proof.
  destruct sizeOrFont as [size|given].
  - unfold prototype.font, bind, gets, update_font, update_ctx, modify.
    cbv beta iota zeta. cbn [fst snd _ctx _font _ready _space].
    eexists _, _. reflexivity.
  - exists (Context.font (_ctx f)), given. now rewrite set_font_same.
Qed.

(** X18: the font is never drawn.  [font] changes the font of the form,
    and for a number the font text of the context, but no draw call reads
    either: a draw call made after any call of [font] ends as it would
    have without, and leaves the same page.  Handed a font object, [font]
    leaves the whole context, its font text too, as it was; handed a
    number, it sets the font text to the value of the font it keeps. *)
Theorem font_is_not_drawn (sizeOrFont : Q + Form.Font)
    (weight style : option string) (lineHeight : option Q)
    (family : option string) (d : draw) (w : world) :
  let r :=
    (prototype.font sizeOrFont weight style lineHeight family ;;; call d) w in
  fst r = fst (call d w) /\
  snd (snd r) = snd (snd (call d w)) /\
  (forall given,
     let w' :=
       snd (prototype.font (inr given) weight style lineHeight family w) in
     _font (fst w') = given /\ ctx_of w' = ctx_of w) /\
  (forall size,
     let w' :=
       snd (prototype.font (inl size) weight style lineHeight family w) in
     Form.size (_font (fst w')) = size /\
     Context.font (ctx_of w') = Font_value (_font (fst w'))).
Proof.
  destruct w as [[c fo rd sp] p]. cbv zeta.
  destruct (font_run sizeOrFont weight style lineHeight family
              (mkForm c fo rd sp) p) as (s & fo' & Hf).
  unfold bind. rewrite Hf. cbn [_ctx _ready _space].
  destruct (call_ignores_font d c s fo fo' rd sp p) as [H1 H2].
  split; [exact H1|]. split; [exact H2|]. split.
  - intros given. split; reflexivity.
  - intros size. split; [|reflexivity].
    unfold prototype.font, bind, gets, update_font, update_ctx, modify.
    cbn [fst snd _font].
    destruct lineHeight as [q|], style as [s1|], weight as [s2|],
      family as [s3|]; cbn;
      repeat match goal with
             | |- context [if ?b then _ else _] => destruct b
             end; reflexivity.
Qed.

End FontFacts.

(** ** SVGForm: the class of an element *)

Section ClassFacts.
Import JS Dom Text SVGForm Footprint.
Context `{E : Externals}.

Lemma last_attribute (data : list (string * string)) (k v s : string)
    (e : Element) :
  last data = Some (k, v) -> k <> "style" ->
  attributes (setAttributes (data ++ [("style", s)]) e) !! k = Some v.
Proof.
  intros Hlast Hk. apply last_Some in Hlast as [data0 ->].
  unfold setAttributes. rewrite !fold_left_app. simpl.
  rewrite lookup_insert_ne by congruence. apply lookup_insert_eq.
Qed.

Lemma steps_attributed {A} (name : string) (data : list (string * string))
    (f : string -> A) (ctx : Context.DrawContext) (pg : page) (g : node)
    (k v : string) :
  Context.group ctx = Some g ->
  own (Context.style ctx) "hasOwnProperty" = None ->
  Context.currentID ctx <> "" ->
  last data = Some (k, v) -> k <> "style" ->
  attributed
    (id0 <- getID ctx ;;
     elem <- SVGSpace.svgElement (Context.group ctx) name id0 ;;
     setAttr elem data ;;;
     style elem (Context.style ctx) ;;;
     ret (f elem))
    pg (Context.currentID ctx) k v.
Proof.
  intros Hg Hs Hid Hlast Hk.
  destruct (draw_element_steps name data (fun elem => ret (f elem)) ctx pg pg
              g (Context.currentID ctx) Hg Hs (getID_current ctx pg Hid))
    as (pg2 & Hrun & Hlook & _).
  unfold attributed. eexists _, pg2, _. split; [exact Hrun|].
  split; [exact Hlook|]. now apply last_attribute.
Qed.

Lemma text_attributed (ctx : Context.DrawContext) (pt : Form.Pt)
    (txt : string) (pg : page) (g : node) :
  Context.group ctx = Some g ->
  own (Context.style ctx) "hasOwnProperty" = None ->
  Context.currentID ctx <> "" ->
  attributed (SVGForm.text ctx pt txt) pg (Context.currentID ctx) "class"
    ("pts-svgform pts-text " +:+ Context.currentClass ctx).
Proof.
  intros Hg Hs Hid. unfold attributed, SVGForm.text.
  unfold bind at 1. rewrite (getID_current ctx pg Hid), Hg. cbv beta iota.
  unfold bind at 1. rewrite svgElement_Some. cbv beta iota.
  unfold bind at 1, setAttr at 1, bind at 1, modify at 1, ret at 1.
  cbv beta iota. unfold bind at 1, modify at 1. cbv beta iota.
  unfold bind at 1. rewrite style_returns by assumption. cbv beta iota.
  eexists _, _, _. split; [reflexivity|]. simpl.
  rewrite !lookup_alter_eq, found_or_created. simpl. split; [reflexivity|].
  unfold setAttribute at 1. cbn [attributes].
  rewrite lookup_insert_ne by discriminate.
  unfold set_textContent. cbn [attributes]. unfold setAttribute at 1.
  cbn [attributes]. apply lookup_insert_eq.
Qed.

Lemma method_attributed {A} (draw_static : Context.DrawContext -> M page A)
    (f : SVGForm) (p : page) (k v : string) :
  attributed (draw_static (_ctx (advanced f))) p
    (Context.currentID (_ctx (advanced f))) k v ->
  let r := (prototype.nextID ;;; ctx <- this_ctx ;;
            on_snd (draw_static ctx) ;;; ret tt) (f, p) in
  fst r = Return tt /\
  exists e,
    document (snd (snd r)) !! Context.currentID (ctx_of (snd r)) = Some e /\
    attributes e !! k = Some v.
Proof.
  intros (a & pg' & e & Hrun & He & Hk). cbv zeta. rewrite method_run, Hrun.
  unfold ctx_of. cbn [fst snd]. split; [reflexivity|]. now exists e.
Qed.

Lemma call_writes_class (d : draw) (w : world) (g : node) :
  draws d = true ->
  Context.group (ctx_of w) = Some g ->
  own (style_in w) "hasOwnProperty" = None ->
  fst (call d w) = Return tt /\
  exists e,
    document (snd (snd (call d w)))
      !! Context.currentID (ctx_of (snd (call d w))) = Some e /\
    attributes e !! "class" =
      Some ("pts-svgform pts-" +:+ shape_class d +:+ " "
            +:+ Context.currentClass (ctx_of w)).
Proof.
  destruct w as [f p]. unfold style_in, ctx_of. cbn [fst snd].
  intros Hd Hg Hs.
  assert (Hg1 : Context.group (_ctx (advanced f)) = Some g) by exact Hg.
  assert (Hs1 : own (Context.style (_ctx (advanced f))) "hasOwnProperty"
                = None) by exact Hs.
  assert (Hid : Context.currentID (_ctx (advanced f)) <> "")
    by apply joined_id_nonempty.
  change (Context.currentClass (_ctx f))
    with (Context.currentClass (_ctx (advanced f))).
  destruct d; cbn [draws] in Hd; unfold call, shape_class.
  - unfold prototype.point. cbv zeta.
    apply (method_attributed
             (fun ctx => SVGForm.point ctx pt (Some (default 5 radius))
                           (Some (default "square" shape)))).
    unfold SVGForm.point. cbv zeta.
    change (default "square" (Some (default "square" shape)))
      with (default "square" shape).
    destruct (String.eqb (default "square" shape) "circle").
    + unfold circle. cbv zeta.
      now apply (steps_attributed "circle") with (g := g).
    + unfold square. now apply (steps_attributed "rect") with (g := g).
  - destruct pts as [|p0 [|p1 pts]]; try (simpl in Hd; discriminate).
    unfold prototype.circle.
    apply (method_attributed (fun ctx => circle ctx p0 (Some (fst p1)))).
    unfold circle. cbv zeta.
    now apply (steps_attributed "circle") with (g := g).
  - unfold prototype.arc.
    apply (method_attributed
             (fun ctx => arc ctx pt radius startAngle endAngle cc)).
    unfold arc. cbv zeta. now apply (steps_attributed "path") with (g := g).
  - unfold prototype.square.
    apply (method_attributed (fun ctx => square ctx pt halfsize)).
    unfold square. now apply (steps_attributed "rect") with (g := g).
  - apply Nat.leb_le in Hd. unfold prototype.line.
    apply (method_attributed (fun ctx => line ctx pts)). unfold line.
    rewrite (checkSize_true pts Hd). cbn [negb].
    destruct (2 <? List.length pts)%nat.
    + unfold _poly. rewrite (checkSize_true pts Hd). cbn [negb]. cbv zeta.
      now apply (steps_attributed "polyline") with (g := g).
    + destruct pts as [|p0 [|p1 pts]]; simpl in Hd; try lia.
      now apply (steps_attributed "line") with (g := g).
  - apply Nat.leb_le in Hd. unfold prototype.polygon.
    apply (method_attributed (fun ctx => polygon ctx pts)).
    unfold polygon, _poly. rewrite (checkSize_true pts Hd). cbn [negb].
    cbv zeta. now apply (steps_attributed "polygon") with (g := g).
  - apply Nat.leb_le in Hd. unfold prototype.rect.
    apply (method_attributed (fun ctx => rect ctx pts)). unfold rect.
    rewrite (checkSize_true pts Hd). cbn [negb]. cbv zeta.
    now apply (steps_attributed "rect") with (g := g).
  - unfold prototype.text.
    apply (method_attributed (fun ctx => text ctx pt txt)).
    now apply (text_attributed _ pt txt p g).
Qed.

(** X19: the class of a drawn element.  After [cls(c)], a draw call that
    has its points, a valid parent and a style map that can be enumerated
    returns and gives the element under its id the class "pts-svgform
    pts-", the name of the shape, a space and the class [c]; a boolean [c],
    [true] as well as [false], stands for no class.  The shape of a point
    is that of the square or circle drawn for it, and a line of more than
    two points is classed as a polygon. *)
Theorem draw_writes_class (c : value) (d : draw) (w : world) (g : node) :
  draws d = true ->
  Context.group (ctx_of w) = Some g ->
  own (style_in w) "hasOwnProperty" = None ->
  let r := (prototype.cls c ;;; call d) w in
  fst r = Return tt /\
  exists e,
    document (snd (snd r)) !! Context.currentID (ctx_of (snd r)) = Some e /\
    attributes e !! "class" =
      Some ("pts-svgform pts-" +:+ shape_class d +:+ " "
            +:+ (if is_boolean c then "" else toString c)).
Proof.
  intros Hd Hg Hs. cbv zeta.
  set (x := if is_boolean c then "" else toString c).
  assert (Hc : prototype.cls c w
               = (Return tt, snd (update_ctx (Context.set_currentClass x) w))).
  { unfold prototype.cls, x. now destruct (is_boolean c). }
  unfold bind. rewrite Hc.
  apply (call_writes_class d
           (snd (update_ctx (Context.set_currentClass x) w)) g);
    assumption.
Qed.

End ClassFacts.

Section ClassRuns.
Import JS Dom Text SVGForm Footprint.

Lemma draw_writes_class_witness :
  let r := (@prototype.cls Sample.externals (str "dot") ;;;
            @call Sample.externals (Line [(0, 0); (1, 1); (2, 0)]))
             Sample.started in
  fst r = Return tt /\
  exists e,
    document (snd (snd r)) !! Context.currentID (ctx_of (snd r)) = Some e /\
    attributes e !! "class" = Some "pts-svgform pts-polygon dot".
Proof.
  apply (@draw_writes_class Sample.externals (str "dot")
           (Line [(0, 0); (1, 1); (2, 0)]) Sample.started 7%nat);
    reflexivity.
Defined.

End ClassRuns.

(** ** SVGForm: fill and stroke *)

Section SwitchFacts.
Import JS Dom Text SVGForm Footprint.
Context `{E : Externals}.

Lemma own_defined (o : object) (k : string) (v : value) :
  own o k = Some v -> v <> undefined -> is_undefined o k = false.
Proof. unfold is_undefined. intros ->. now destruct v. Qed.

Lemma assign_own (o : object) (k : string) (v v' : value) :
  own o k = Some v' -> assign o k v = replace o k v.
Proof. unfold assign. now intros ->. Qed.

Lemma own_replace (o : object) (k : string) (v v' : value) :
  own o k = Some v' -> own (replace o k v) k = Some v.
Proof. intros H. apply own_replace_eq. congruence. Qed.

Lemma replace_back (o : object) (k : string) (v v' : value) :
  own o k = Some v -> replace (replace o k v') k v = o.
Proof.
  induction o as [|[k0 v0] o IH]; simpl; [reflexivity|].
  destruct (String.eqb k0 k) eqn:Ek; simpl; rewrite Ek.
  - now intros [= ->].
  - intros H. now rewrite IH.
Qed.

Lemma update_style_same (w : world) :
  snd (update_ctx (Context.set_style (style_in w)) w) = w.
Proof. destruct w as [[[] fo rd sp] p]. reflexivity. Qed.

Lemma switch_round_trip (k : string) (w : world) :
  own (style_in w) k = Some (boolean true) ->
  (prototype.styleTo k (boolean false) ;;;
   prototype.styleTo k (boolean true)) w = (Return tt, w).
Proof.
  intros Ho.
  assert (Hd : is_undefined (style_in w) k = false)
    by (apply (own_defined _ _ _ Ho); discriminate).
  rewrite styleTo_then, Hd.
  rewrite styleTo_defined; rewrite style_in_update.
  - rewrite update_style_twice.
    rewrite (assign_own _ _ _ _ Ho).
    rewrite (assign_own _ k (boolean true) (boolean false))
      by now apply own_replace with (v' := boolean true).
    rewrite (replace_back _ _ _ _ Ho). now rewrite update_style_same.
  - rewrite (assign_own _ _ _ _ Ho).
    apply own_defined with (v := boolean false); [|discriminate].
    now apply own_replace with (v' := boolean true).
Qed.

(** X20: switching the fill and the stroke off and on again.  On a style
    map that has the fill and the stroke switched on, [fill(false)]
    followed by [fill(true)] returns and leaves the form and the page
    exactly as they were, and while the fill is off every other entry, the
    colour too, is still in the map; the same holds of [stroke]. *)
Theorem switch_off_and_on (w : world) :
  own (style_in w) "filled" = Some (boolean true) ->
  own (style_in w) "stroked" = Some (boolean true) ->
  ((prototype.fill (boolean false) ;;; prototype.fill (boolean true)) w
   = (Return tt, w) /\
   forall k, k <> "filled" ->
     own (style_in (snd (prototype.fill (boolean false) w))) k
     = own (style_in w) k) /\
  ((prototype.stroke (boolean false) undefined undefined undefined ;;;
    prototype.stroke (boolean true) undefined undefined undefined) w
   = (Return tt, w) /\
   forall k, k <> "stroked" ->
     own (style_in (snd (prototype.stroke (boolean false) undefined undefined
                           undefined w))) k
     = own (style_in w) k).
Proof.
  intros Hf Hs. split.
  - split; [now apply switch_round_trip|]. intros k Hk.
    unfold prototype.fill. cbn [is_boolean].
    rewrite styleTo_defined
      by (apply (own_defined _ _ _ Hf); discriminate).
    cbn [snd]. rewrite style_in_update. apply own_assign_ne. congruence.
  - split; [now apply switch_round_trip|]. intros k Hk.
    unfold prototype.stroke. cbn [is_boolean].
    rewrite styleTo_defined
      by (apply (own_defined _ _ _ Hs); discriminate).
    cbn [snd]. rewrite style_in_update. apply own_assign_ne. congruence.
Qed.

(** X21: [stroke] skips the arguments that are falsy.  Called with a
    colour and a width, a line join and a line cap that are left out, or
    are 0 or the empty string, on a style map whose stroke entries are
    defined, [stroke] returns having switched the stroke on and set the
    colour, and nothing else: the width stays what it was, so that no call
    of [stroke] sets the width to 0; the page is not touched. *)
Theorem stroke_skips_falsy_arguments (c width linejoin linecap : value)
    (w : world) :
  is_boolean c = false ->
  truthy width = false -> truthy linejoin = false ->
  truthy linecap = false ->
  is_undefined (style_in w) "stroked" = false ->
  is_undefined (style_in w) "stroke" = false ->
  let r := prototype.stroke c width linejoin linecap w in
  fst r = Return tt /\
  get (style_in (snd r)) "stroked" = boolean true /\
  get (style_in (snd r)) "stroke" = c /\
  (forall k, k <> "stroked" -> k <> "stroke" ->
     own (style_in (snd r)) k = own (style_in w) k) /\
  snd (snd r) = snd w.
Proof.
  intros Hb Hw Hj Hc H1 H2. cbv zeta. unfold prototype.stroke.
  rewrite Hb, Hw, Hj, Hc.
  repeat (rewrite ?bind_assoc, ?styleTo_then, ?style_in_update,
            ?update_style_twice, ?bind_ret; cbv beta).
  rewrite is_undefined_assign_ne by discriminate. rewrite H1, H2.
  unfold ret. cbn [fst snd]. rewrite style_in_update, page_update.
  split; [reflexivity|]. split; [|split; [|split; [|reflexivity]]].
  - rewrite get_assign_ne by discriminate.
    apply get_assign_eq; [assumption | discriminate].
  - apply get_assign_eq; [|discriminate].
    now rewrite is_undefined_assign_ne by discriminate.
  - intros k Hk1 Hk2. rewrite !own_assign_ne by congruence. reflexivity.
Qed.

End SwitchFacts.

Section SwitchRuns.
Import JS Dom Text SVGForm Footprint.

Lemma switch_off_and_on_witness :
  (prototype.fill (boolean false) ;;; prototype.fill (boolean true))
    Sample.started = (Return tt, Sample.started) /\
  (prototype.stroke (boolean false) undefined undefined undefined ;;;
   prototype.stroke (boolean true) undefined undefined undefined)
    Sample.started = (Return tt, Sample.started).
Proof.
  destruct (switch_off_and_on Sample.started) as ((Hfill & _) & Hstroke & _);
    [reflexivity | reflexivity |].
  split; [exact Hfill | exact Hstroke].
Defined.

Lemma stroke_skips_falsy_arguments_witness :
  let r := prototype.stroke (str "#000") (number 0) (str "") undefined
             Sample.started in
  fst r = Return tt /\
  get (style_in (snd r)) "stroke" = str "#000" /\
  get (style_in (snd r)) "stroke-width" = number 1.
Proof.
  cbv zeta.
  destruct (stroke_skips_falsy_arguments (str "#000") (number 0) (str "")
              undefined Sample.started)
    as (Hret & _ & Hcol & Hrest & _); try reflexivity.
  split; [exact Hret|]. split; [exact Hcol|].
  unfold get. rewrite Hrest by discriminate. reflexivity.
Defined.

End SwitchRuns.

(** ** SVGForm: the style text *)

Section EntryFacts.
Import JS Dom Text SVGForm Footprint.
Context `{E : Externals}.

(** A key that does not start with a word free of colons makes no entry
    that does. *)
Lemma prefix_entry (p k x : string) :
  (forall a b, p <> a +:+ ":" +:+ b) ->
  String.prefix p k = false ->
  String.prefix p (k +:+ ": " +:+ x) = false.
Proof.
  revert k. induction p as [|a p IH]; intros k Hno Hk; [now destruct k|].
  destruct k as [|b k]; simpl in *.
  - match goal with
    | |- (if ?d then _ else _) = _ => destruct d as [->|_]; [|reflexivity]
    end.
    exfalso. now apply (Hno "" p).
  - destruct (Ascii.ascii_dec a b); [|reflexivity].
    apply IH; [|exact Hk]. intros a0 b0 ->. now apply (Hno (String a a0) b0).
Qed.

Lemma fill_has_no_colon (a b : string) : "fill" <> a +:+ ":" +:+ b.
Proof. destruct a as [|? [|? [|? [|? [|? a]]]]]; discriminate. Qed.

Lemma stroke_has_no_colon (a b : string) : "stroke" <> a +:+ ":" +:+ b.
Proof.
  destruct a as [|? [|? [|? [|? [|? [|? [|? a]]]]]]]; discriminate.
Qed.

Lemma style_entry_cases (styles : object) (st : list string) (k : string) :
  style_entry styles st k = st \/
  (style_entry styles st k
     = (st ++ [k +:+ ": " +:+ toString (get styles k)])%list /\
   (truthy (get styles "filled") = false -> String.prefix "fill" k = false) /\
   (truthy (get styles "stroked") = false ->
    String.prefix "stroke" k = false)).
Proof.
  unfold style_entry.
  destruct (negb (String.eqb k "filled") && negb (String.eqb k "stroked"));
    [|now left].
  cbv zeta. destruct (truthy (get styles k)); [|now left].
  destruct (truthy (get styles "filled")) eqn:Hf; cbn [negb andb].
  - destruct (truthy (get styles "stroked")) eqn:Hs; cbn [negb andb].
    + right. repeat split; intros; congruence.
    + destruct (String.prefix "stroke" k) eqn:Hp; [now left|].
      right. repeat split; intros; congruence.
  - destruct (String.prefix "fill" k) eqn:Hp; [now left|].
    destruct (truthy (get styles "stroked")) eqn:Hs; cbn [negb andb].
    + right. repeat split; intros; congruence.
    + destruct (String.prefix "stroke" k) eqn:Hp'; [now left|].
      right. repeat split; intros; congruence.
Qed.

Lemma entries_kept (styles : object) (keys : list string) (st : list string)
    (s : string) :
  In s st -> In s (fold_left (style_entry styles) keys st).
Proof.
  revert st. induction keys as [|k keys IH]; intros st Hin; [exact Hin|].
  simpl. apply IH.
  destruct (style_entry_cases styles st k) as [-> | (-> & _)];
    [exact Hin | apply in_or_app; now left].
Qed.

Lemma entries_invariant (P : string -> Prop) (styles : object)
    (keys : list string) (st : list string) :
  (forall k, (truthy (get styles "filled") = false ->
              String.prefix "fill" k = false) ->
             (truthy (get styles "stroked") = false ->
              String.prefix "stroke" k = false) ->
             P (k +:+ ": " +:+ toString (get styles k))) ->
  (forall s, In s st -> P s) ->
  forall s, In s (fold_left (style_entry styles) keys st) -> P s.
Proof.
  intros Hnew. revert st. induction keys as [|k keys IH]; intros st Hst;
    [exact Hst|].
  simpl. apply IH.
  destruct (style_entry_cases styles st k) as [-> | (-> & Hf & Hs)];
    [exact Hst|].
  intros s [Hin | [<- | []]]%in_app_or; auto.
Qed.

(** X22: what is switched off is not written.  The style text is the
    entries of the style map joined with ";".  When the fill is switched
    off, "fill: none" is among the entries and is the only one that starts
    with "fill": neither the fill colour nor any other entry of a key
    beginning with "fill" is written; the same holds of the stroke and
    "stroke: none". *)
Theorem switched_off_is_not_written (styles : object) :
  style_text styles = String.concat ";" (style_entries styles) /\
  (truthy (get styles "filled") = false ->
   In "fill: none" (style_entries styles) /\
   forall s, In s (style_entries styles) ->
     String.prefix "fill" s = true -> s = "fill: none") /\
  (truthy (get styles "stroked") = false ->
   In "stroke: none" (style_entries styles) /\
   forall s, In s (style_entries styles) ->
     String.prefix "stroke" s = true -> s = "stroke: none").
Proof.
  split; [reflexivity|]. unfold style_entries. cbv zeta. split; intros Hoff.
  - rewrite Hoff. split.
    + apply entries_kept.
      destruct (truthy (get styles "stroked")); simpl; auto.
    + apply (entries_invariant
               (fun s => String.prefix "fill" s = true -> s = "fill: none")).
      * intros k Hf _ Hp.
        rewrite prefix_entry in Hp;
          [discriminate | apply fill_has_no_colon | auto].
      * intros s Hin Hp.
        destruct (truthy (get styles "stroked")); simpl in Hin;
          destruct Hin as [<- | Hin]; try reflexivity; try contradiction.
        destruct Hin as [<- | []]. discriminate.
  - rewrite Hoff. split.
    + apply entries_kept. apply in_or_app. right. now left.
    + apply (entries_invariant
               (fun s => String.prefix "stroke" s = true
                         -> s = "stroke: none")).
      * intros k _ Hs Hp.
        rewrite prefix_entry in Hp;
          [discriminate | apply stroke_has_no_colon | auto].
      * intros s Hin Hp.
        destruct (truthy (get styles "filled")); simpl in Hin;
          destruct Hin as [<- | Hin]; try reflexivity; try contradiction.
        -- discriminate.
        -- destruct Hin as [<- | []]. reflexivity.
Qed.

End EntryFacts.
